(** * beanie: the find-query builder ([beanie/odm/queries/find.py])

    A shallow embedding of [FindQuery] (a pydantic model with
    [validate_assignment = True]) and of [SessionMethods.set_session],
    together with the properties of the builder and of the executor.

    Conventions of the embedding.
    - Query objects live in a store ([gmap loc FindQuery]): [self.copy()]
      allocates a new object, [setattr] updates the object it is given in
      place.  Python lists are kept as values inside the objects: the
      source builds every list it assigns with [+], [list(...)] or a
      comprehension, and has no in-place list operation.
    - Exceptions are the left summand of a sum; a raising call keeps the
      store it reached.
    - Calls to the motor collection are the nodes of a finite tree
      ([Awaitable]) that a collection answers; the run records the calls. *)

From Stdlib Require Import ZArith String Ascii List.
From stdpp Require Import base option list gmap strings pretty.
Import ListNotations.

Local Open Scope Z_scope.

Set Warnings "-register-all".

(** ** Python values that reach the sort validators *)

(** Modelled from the spec: [beanie.odm.enums.SortDirection] is not among
    the sources; the spec gives its two members, and upstream declares it
    as an [int]-mixin [Enum] with values [1] and [-1]. *)
Inductive SortDirection : Set :=
| ASCENDING
| DESCENDING.

Inductive PyVal : Type :=
| VNone
| VInt (z : Z)
| VStr (s : string)
| VDir (d : SortDirection)
| VTuple (items : list PyVal)
| VList (items : list PyVal).

Definition is_None (v : PyVal) : bool :=
  match v with VNone => true | _ => false end.

Definition is_tuple (v : PyVal) : bool :=
  match v with VTuple _ => true | _ => false end.

Definition is_str (v : PyVal) : bool :=
  match v with VStr _ => true | _ => false end.

(** [s.startswith(c)] for a one-character prefix, and [s[1:]]. *)
Definition startswith (s : string) (c : ascii) : bool :=
  match s with
  | String c' _ => Ascii.eqb c' c
  | EmptyString => false
  end.

Definition slice_from_1 (s : string) : string :=
  match s with
  | String _ rest => rest
  | EmptyString => EmptyString
  end.

(** ** Errors *)

(** What a validator reports for one value. [TypeError] is the exception
    the source raises; the others are the errors of pydantic's own
    validators for the declared field types. *)
Inductive Cause : Type :=
| TypeError (msg : string)
| NoneIsNotAllowedError
| StrError
| EnumMemberError
| TupleError
| TupleLengthError (actual expected : nat)
| NumberNotGeError (limit_value : Z).

Inductive LocItem : Type :=
| LField (name : string)
| LIndex (i : nat).

(** pydantic's [ErrorWrapper]: the cause and the place of the value. *)
Definition ErrorWrapper : Type := list LocItem * Cause.

Inductive Exn : Type :=
| ValueError (msg : string)
| ValidationError (errors : list ErrorWrapper)
| ParseError
| InvalidReference.

(** ** The field validators of [FindQuery] *)

(** [validate_sort_items] (find.py, lines 71-85). *)
Definition validate_sort_items (val : PyVal) : Cause + PyVal :=
  if is_None val then inr VNone
  else if is_tuple val then inr val
  else match val with
       | VStr s =>
           if startswith s "+"%char then
             inr (VTuple [VStr (slice_from_1 s); VDir ASCENDING])
           else if startswith s "-"%char then
             inr (VTuple [VStr (slice_from_1 s); VDir DESCENDING])
           else inr (VTuple [VStr s; VDir ASCENDING])
       | _ => inl (TypeError "Wrong sort type")
       end.

(** [validate_sort_no_none] (find.py, lines 87-89). *)
Definition validate_sort_no_none (val : list PyVal) : list PyVal :=
  List.filter (fun item => negb (is_None item)) val.

(** [default_projection_model] (find.py, lines 67-69); [values] is
    represented by the one entry the validator reads. *)
Definition default_projection_model {Model : Type}
    (val : option Model) (values_document_model : Model) : Model :=
  match val with
  | Some m => m
  | None => values_document_model
  end.

(** ** pydantic's validation of the declared field types

    The framework is not part of the repository; what follows models
    pydantic 1.x on the values above.  For a field [List[T]] with class
    validators, a [pre] validator of the whole value runs first, then each
    item goes through the item field: its [each_item, pre] validators,
    the check against [None], and the validators of [T].  Errors of all
    items are collected. *)

Definition str_of_SortDirection (d : SortDirection) : string :=
  match d with
  | ASCENDING => "SortDirection.ASCENDING"
  | DESCENDING => "SortDirection.DESCENDING"
  end.

(** [str_validator]: a [str] is kept, an [int] goes through [str(v)]. *)
Definition str_validator (v : PyVal) : Cause + string :=
  match v with
  | VStr s => inr s
  | VInt z => inr (pretty z)
  | VDir d => inr (str_of_SortDirection d)
  | VNone => inl NoneIsNotAllowedError
  | _ => inl StrError
  end.

(** [enum_member_validator] at [SortDirection]: [SortDirection(v)]. *)
Definition enum_member_validator (v : PyVal) : Cause + SortDirection :=
  match v with
  | VDir d => inr d
  | VInt 1 => inr ASCENDING
  | VInt (-1) => inr DESCENDING
  | VNone => inl NoneIsNotAllowedError
  | _ => inl EnumMemberError
  end.

(** [ModelField._validate_tuple] at [Tuple[str, SortDirection]]. *)
Definition validate_tuple (loc : list LocItem) (v : PyVal)
  : list ErrorWrapper + (string * SortDirection) :=
  match v with
  | VTuple items | VList items =>
      match items with
      | [a; b] =>
          match str_validator a, enum_member_validator b with
          | inr f, inr d => inr (f, d)
          | inl e, inr _ => inl [(loc ++ [LIndex 0], e)]
          | inr _, inl e => inl [(loc ++ [LIndex 1], e)]
          | inl e0, inl e1 =>
              inl [(loc ++ [LIndex 0], e0); (loc ++ [LIndex 1], e1)]
          end
      | _ => inl [(loc, TupleLengthError (length items) 2)]
      end
  | _ => inl [(loc, TupleError)]
  end.

(** [ModelField.validate] of the item field of [sort_expressions]: the
    normaliser [item_validator] stands for [validate_sort_items], which
    pydantic attaches to the item field as a [pre] validator. *)
Definition validate_sort_item_with (item_validator : PyVal -> Cause + PyVal)
    (loc : list LocItem) (v : PyVal)
  : list ErrorWrapper + (string * SortDirection) :=
  match item_validator v with
  | inl e => inl [(loc, e)]
  | inr v' =>
      if is_None v' then inl [(loc, NoneIsNotAllowedError)]
      else validate_tuple loc v'
  end.

(** [ModelField._validate_sequence_like]: every item is validated, the
    errors and the results are gathered in order. *)
Fixpoint validate_sequence_like {A : Type}
    (f : list LocItem -> PyVal -> list ErrorWrapper + A)
    (loc : list LocItem) (i : nat) (v : list PyVal)
  : list ErrorWrapper * list A :=
  match v with
  | [] => ([], [])
  | v_ :: rest =>
      let '(errors, result) := validate_sequence_like f loc (S i) rest in
      match f (loc ++ [LIndex i]) v_ with
      | inl ee => (ee ++ errors, result)
      | inr r => (errors, r :: result)
      end
  end.

(** The whole validation of a value assigned to [sort_expressions], with
    the item normaliser as a parameter. *)
Definition validate_sort_expressions_with
    (item_validator : PyVal -> Cause + PyVal) (val : list PyVal)
  : list ErrorWrapper + list (string * SortDirection) :=
  let v := validate_sort_no_none val in
  match validate_sequence_like (validate_sort_item_with item_validator)
          [LField "sort_expressions"] 0 v with
  | ([], result) => inr result
  | (errors, _) => inl errors
  end.

Definition validate_sort_expressions (val : list PyVal)
  : list ErrorWrapper + list (string * SortDirection) :=
  validate_sort_expressions_with validate_sort_items val.

(** [conint(ge = 0)] on an [int]. *)
Definition validate_conint_ge0 (name : string) (v : Z)
  : list ErrorWrapper + Z :=
  if 0 <=? v then inr v else inl [([LField name], NumberNotGeError 0)].

(** A stored sort key seen as the Python tuple it is. *)
Definition sort_key_value (k : string * SortDirection) : PyVal :=
  VTuple [VStr (fst k); VDir (snd k)].

(** Addresses of query objects in the store. *)
Abbreviation loc := positive.

(** ** The query object *)

Section FindQuery.
(** Classes and handles the builder only carries around: model classes
    ([Type[BaseModel]]), filter expressions ([BaseFindOperator] or a raw
    mapping), pymongo sessions and motor cursors. *)
Context {Model Expr Session Cursor : Type}.

(** The fields of [FindQuery], those inherited from [SessionMethods]
    first.  [projection_model] is never [None] once validated. *)
Record FindQuery : Type := mkFindQuery {
  session : option Session;
  document_model : Model;
  find_expressions : list Expr;
  projection_model : Model;
  sort_expressions : list (string * SortDirection);
  skip_number : Z;
  limit_number : Z;
  is_single : bool;
  cursor : option Cursor;
}.

(** The object's [__dict__] with one entry replaced. *)
Definition with_session (v : option Session) (d : FindQuery) : FindQuery :=
  mkFindQuery v (document_model d) (find_expressions d)
    (projection_model d) (sort_expressions d) (skip_number d)
    (limit_number d) (is_single d) (cursor d).

Definition with_find_expressions (v : list Expr) (d : FindQuery) : FindQuery :=
  mkFindQuery (session d) (document_model d) v
    (projection_model d) (sort_expressions d) (skip_number d)
    (limit_number d) (is_single d) (cursor d).

Definition with_projection_model (v : Model) (d : FindQuery) : FindQuery :=
  mkFindQuery (session d) (document_model d) (find_expressions d)
    v (sort_expressions d) (skip_number d)
    (limit_number d) (is_single d) (cursor d).

Definition with_sort_expressions (v : list (string * SortDirection))
    (d : FindQuery) : FindQuery :=
  mkFindQuery (session d) (document_model d) (find_expressions d)
    (projection_model d) v (skip_number d)
    (limit_number d) (is_single d) (cursor d).

Definition with_skip_number (v : Z) (d : FindQuery) : FindQuery :=
  mkFindQuery (session d) (document_model d) (find_expressions d)
    (projection_model d) (sort_expressions d) v
    (limit_number d) (is_single d) (cursor d).

Definition with_limit_number (v : Z) (d : FindQuery) : FindQuery :=
  mkFindQuery (session d) (document_model d) (find_expressions d)
    (projection_model d) (sort_expressions d) (skip_number d)
    v (is_single d) (cursor d).

Definition with_is_single (v : bool) (d : FindQuery) : FindQuery :=
  mkFindQuery (session d) (document_model d) (find_expressions d)
    (projection_model d) (sort_expressions d) (skip_number d)
    (limit_number d) v (cursor d).

(** One keyword argument of [_copy_update]: a field name and a value of
    the type the callers in the source pass for it. *)
Inductive Assign : Type :=
| Set_find_expressions (value : list Expr)
| Set_projection_model (value : option Model)
| Set_sort_expressions (value : list PyVal)
| Set_skip_number (value : Z)
| Set_limit_number (value : Z)
| Set_is_single (value : bool).

(** [BaseModel.__setattr__] under [validate_assignment]: the value is
    validated against its field (with the other fields as [values]);
    on success the object's [__dict__] becomes the old one with the
    validated value, on failure [ValidationError] is raised and the
    object is left as it was.  Expressions and model classes of the
    declared types are accepted as they are; [projection_model] goes
    through [default_projection_model], [sort_expressions] through
    [validate_sort_no_none] and [validate_sort_items], the two numbers
    through [conint(ge = 0)]. *)
Definition validate_assignment (d : FindQuery) (kv : Assign)
  : Exn + FindQuery :=
  match kv with
  | Set_find_expressions value => inr (with_find_expressions value d)
  | Set_projection_model value =>
      inr (with_projection_model
             (default_projection_model value (document_model d)) d)
  | Set_sort_expressions value =>
      match validate_sort_expressions value with
      | inr value' => inr (with_sort_expressions value' d)
      | inl errors => inl (ValidationError errors)
      end
  | Set_skip_number value =>
      match validate_conint_ge0 "skip_number" value with
      | inr value' => inr (with_skip_number value' d)
      | inl errors => inl (ValidationError errors)
      end
  | Set_limit_number value =>
      match validate_conint_ge0 "limit_number" value with
      | inr value' => inr (with_limit_number value' d)
      | inl errors => inl (ValidationError errors)
      end
  | Set_is_single value => inr (with_is_single value d)
  end.

(** *** The store of query objects *)


Definition M (A : Type) : Type :=
  gmap loc FindQuery → gmap loc FindQuery * (Exn + A).

#[global] Instance M_ret : MRet M := λ A x σ, (σ, inr x).

#[global] Instance M_bind : MBind M := λ A B f m σ,
  match m σ with
  | (σ', inr x) => f x σ'
  | (σ', inl e) => (σ', inl e)
  end.

Definition raise {A : Type} (e : Exn) : M A := λ σ, (σ, inl e).

(** Reading the fields of [self]. *)
Definition deref (self : loc) : M FindQuery := λ σ,
  match σ !! self with
  | Some d => (σ, inr d)
  | None => (σ, inl InvalidReference)
  end.

(** A new object, at an address no object of the store has. *)
Definition alloc (d : FindQuery) : M loc := λ σ,
  let l := fresh (dom σ) in (<[l := d]> σ, inr l).

(** [self.copy()]: a new object with the fields of [self]. *)
Definition copy (self : loc) : M loc :=
  d ← deref self; alloc d.

(** [setattr(res, key, value)]. *)
Definition setattr (res : loc) (kv : Assign) : M unit := λ σ,
  match σ !! res with
  | Some d =>
      match validate_assignment d kv with
      | inr d' => (<[res := d']> σ, inr tt)
      | inl e => (σ, inl e)
      end
  | None => (σ, inl InvalidReference)
  end.

Fixpoint setattr_all (res : loc) (kwargs : list Assign) : M unit :=
  match kwargs with
  | [] => mret tt
  | kv :: rest => _ ← setattr res kv; setattr_all res rest
  end.

(** *** Setters (find.py, lines 96-190; session.py, lines 12-18) *)

Definition _copy_update (self : loc) (kwargs : list Assign) : M loc :=
  res ← copy self;
  _ ← setattr_all res kwargs;
  mret res.

Definition limit (self : loc) (limit_number : Z) : M loc :=
  _copy_update self [Set_limit_number limit_number].

Definition skip (self : loc) (skip_number : Z) : M loc :=
  _copy_update self [Set_skip_number skip_number].

Definition project (self : loc) (projection_model : option Model) : M loc :=
  _copy_update self [Set_projection_model projection_model].

Definition one (self : loc) (is_single : bool) : M loc :=
  _copy_update self [Set_is_single is_single; Set_limit_number 1].

(** The last branch of [sort]: the new items go in front of the stored
    keys, and the sum is assigned (and so validated). *)
Definition sort_assign (self : loc) (args : list PyVal) : M loc :=
  d ← deref self;
  _copy_update self
    [Set_sort_expressions (args ++ map sort_key_value (sort_expressions d))].

(** [self.sort(arg)], one argument.  The source recurses on
    [self.sort( *args[0])] when the only argument is a list; here the
    recursion is on that argument, which makes it structural
    ([sort_eq] below gives the equation in the source's shape). *)
Fixpoint sort1 (self : loc) (arg : PyVal) {struct arg} : M loc :=
  match arg with
  | VList [] => raise (ValueError "'sort()' requires arguments.")
  | VList [arg0] => sort1 self arg0
  | VList items => sort_assign self items
  | _ => sort_assign self [arg]
  end.

Definition sort (self : loc) (args : list PyVal) : M loc :=
  match args with
  | [] => raise (ValueError "'sort()' requires arguments.")
  | [arg0] => sort1 self arg0
  | _ => sort_assign self args
  end.

(** [SessionMethods.set_session]: [self.copy(update = {'session': session})],
    a copy with the entry replaced, without validation. *)
Definition set_session (self : loc) (session' : option Session) : M loc :=
  d ← deref self; alloc (with_session session' d).

(** The keyword arguments of [find], all [None] by default. *)
Record FindKwargs : Type := mkFindKwargs {
  kw_skip : option Z;
  kw_limit : option Z;
  kw_sort : option PyVal;
  kw_one : option bool;
  kw_projection_model : option Model;
  kw_session : option Session;
}.

Definition no_kwargs : FindKwargs :=
  mkFindKwargs None None None None None None.

Definition find (self : loc) (args : list Expr) (kw : FindKwargs) : M loc :=
  d ← deref self;
  res ← _copy_update self [Set_find_expressions (find_expressions d ++ args)];
  res ← match kw_skip kw with Some n => skip res n | None => mret res end;
  res ← match kw_limit kw with Some n => limit res n | None => mret res end;
  res ← match kw_sort kw with Some s => sort res [s] | None => mret res end;
  res ← match kw_one kw with Some b => one res b | None => mret res end;
  res ← match kw_projection_model kw with
        | Some m => project res (Some m)
        | None => mret res
        end;
  res ← match kw_session kw with
        | Some s => set_session res (Some s)
        | None => mret res
        end;
  mret res.

Definition find_many := find.

(** [find_one]: [self.find( *args, **kwargs).one()]. *)
Definition find_one (self : loc) (args : list Expr) (kw : FindKwargs) : M loc :=
  res ← find self args kw; one res true.

End FindQuery.

(** ** Getters and queries (find.py, lines 195-252) *)

Section Executor.
Context {Model Expr Session Cursor : Type}.
(** Raw records of the collection, parsed documents, and the projection
    mapping that [get_projection] derives from a model class. *)
Context {RawDocument Document Projection : Type}.

(** [beanie.odm.utils.projection.get_projection] and the [parse_obj] of
    the model classes, both outside this module. *)
Variable get_projection : Model → Projection.
Variable parse_obj : Model → RawDocument → Exn + Document.

#[local] Abbreviation FindQuery := (@FindQuery Model Expr Session Cursor).

(** Modelled from the spec: [beanie.odm.operators.find.logical.And] is
    not among the sources; it merges the predicates it is given, in their
    order, into one.  [get_filter_query] returns the empty mapping [{}]
    or [And( *find_expressions)]. *)
Inductive FilterQuery : Type :=
| EmptyMapping
| And (expressions : list Expr).

Definition get_projection_model (self : FindQuery) : Model :=
  projection_model self.

Definition get_filter_query (self : FindQuery) : FilterQuery :=
  match find_expressions self with
  | [] => EmptyMapping
  | _ :: _ => And (find_expressions self)
  end.

(** The dictionary built by [_find_query_params], one field per key. *)
Record Params : Type := mkParams {
  p_filter : FilterQuery;
  p_projection : Projection;
  p_session : option Session;
  p_limit : Z;
  p_skip : Z;
  p_sort : list (string * SortDirection);
}.

Definition _find_query_params (self : FindQuery) : Params :=
  mkParams (get_filter_query self)
           (get_projection (projection_model self))
           (session self)
           (if negb (is_single self) then limit_number self else 1)
           (skip_number self)
           (sort_expressions self).

(** A suspended computation: it returns, raises, or awaits one call of
    the motor collection and goes on with the answer. *)
Inductive Awaitable (R : Type) : Type :=
| Return (r : R)
| Raise (e : Exn)
| Await_find_one (params : Params) (k : option RawDocument → Awaitable R)
| Await_count_documents (filter : FilterQuery) (k : Z → Awaitable R).
Arguments Return {R} r.
Arguments Raise {R} e.
Arguments Await_find_one {R} params k.
Arguments Await_count_documents {R} filter k.

(** The value of [await query]: [None] or a parsed document in single
    mode; otherwise the source returns the object
    [self.to_list().__await__()] (of [BaseCursorQuery], not among the
    sources), kept here as a symbol. *)
Inductive AwaitResult : Type :=
| ResNone
| ResDocument (document : Document)
| ResToListAwait (self : FindQuery).

Definition __await__ (self : FindQuery) : Awaitable AwaitResult :=
  let params := _find_query_params self in
  if is_single self then
    Await_find_one params (λ document,
      match document with
      | None => Return ResNone
      | Some raw =>
          match parse_obj (projection_model self) raw with
          | inr parsed => Return (ResDocument parsed)
          | inl e => Raise e
          end
      end)
  else Return (ResToListAwait self).


(** *** Running against a collection *)

(** The motor collection as the executor sees it: an answer, or an
    error of the driver, for each call. *)
Record Collection : Type := mkCollection {
  coll_find_one : Params → Exn + option RawDocument;
  coll_count_documents : FilterQuery → Exn + Z;
}.

Inductive Call : Type :=
| Called_find_one (params : Params)
| Called_count_documents (filter : FilterQuery).

(** The calls issued, in order, and the outcome. *)
Fixpoint run {R : Type} (c : Collection) (a : Awaitable R)
  : list Call * (Exn + R) :=
  match a with
  | Return r => ([], inr r)
  | Raise e => ([], inl e)
  | Await_find_one params k =>
      match coll_find_one c params with
      | inr answer =>
          let '(calls, out) := run c (k answer) in
          (Called_find_one params :: calls, out)
      | inl e => ([Called_find_one params], inl e)
      end
  | Await_count_documents filter k =>
      match coll_count_documents c filter with
      | inr answer =>
          let '(calls, out) := run c (k answer) in
          (Called_count_documents filter :: calls, out)
      | inl e => ([Called_count_documents filter], inl e)
      end
  end.

End Executor.


Arguments Return {Expr Session RawDocument Projection R} r.
Arguments Raise {Expr Session RawDocument Projection R} e.
Arguments Await_find_one {Expr Session RawDocument Projection R} params k.
Arguments Await_count_documents {Expr Session RawDocument Projection R} filter k.

(** ** The builder read on field values

    Each setter allocates and fills new objects only, so what it produces
    is a function of the fields of [self].  The definitions below are
    these functions; [Transform] names the setters of the builder. *)

Section Values.
Context {Model Expr Session Cursor : Type}.
#[local] Abbreviation FindQuery := (@FindQuery Model Expr Session Cursor).
#[local] Abbreviation FindKwargs := (@FindKwargs Model Session).
#[local] Abbreviation M := (@M Model Expr Session Cursor).

Definition bind_exn {A B : Type} (x : Exn + A) (f : A → Exn + B) : Exn + B :=
  match x with
  | inr a => f a
  | inl e => inl e
  end.

(** The assignments of [_copy_update] on the fields of the copy: the
    fields reached, and the error that stopped the loop if any. *)
Fixpoint assign_all (d : FindQuery) (kwargs : list Assign)
  : FindQuery * (Exn + unit) :=
  match kwargs with
  | [] => (d, inr tt)
  | kv :: rest =>
      match validate_assignment d kv with
      | inr d' => assign_all d' rest
      | inl e => (d, inl e)
      end
  end.

Definition copy_update_val (d : FindQuery) (kwargs : list Assign)
  : Exn + FindQuery :=
  match assign_all d kwargs with
  | (d', inr _) => inr d'
  | (_, inl e) => inl e
  end.

(** The arguments that [sort] ends up assigning, once the lists that
    come as only argument are opened; [None] when it ends on an empty
    argument list. *)
Fixpoint sort_items1 (arg : PyVal) : option (list PyVal) :=
  match arg with
  | VList [] => None
  | VList [arg0] => sort_items1 arg0
  | VList items => Some items
  | _ => Some [arg]
  end.

Definition sort_items (args : list PyVal) : option (list PyVal) :=
  match args with
  | [] => None
  | [arg0] => sort_items1 arg0
  | _ => Some args
  end.

Definition sort_assign_val (d : FindQuery) (items : list PyVal)
  : Exn + FindQuery :=
  copy_update_val d
    [Set_sort_expressions (items ++ map sort_key_value (sort_expressions d))].

Definition sort_val (d : FindQuery) (args : list PyVal) : Exn + FindQuery :=
  match sort_items args with
  | None => inl (ValueError "'sort()' requires arguments.")
  | Some items => sort_assign_val d items
  end.

Definition one_val (d : FindQuery) (b : bool) : Exn + FindQuery :=
  copy_update_val d [Set_is_single b; Set_limit_number 1].

Definition optionally {A : Type} (o : option A)
    (f : FindQuery → A → Exn + FindQuery) (d : FindQuery) : Exn + FindQuery :=
  match o with
  | Some a => f d a
  | None => inr d
  end.

Definition find_val (d : FindQuery) (args : list Expr) (kw : FindKwargs)
  : Exn + FindQuery :=
  bind_exn (copy_update_val d [Set_find_expressions (find_expressions d ++ args)])
    (λ d1, bind_exn (optionally (kw_skip kw)
                       (λ d n, copy_update_val d [Set_skip_number n]) d1)
    (λ d2, bind_exn (optionally (kw_limit kw)
                       (λ d n, copy_update_val d [Set_limit_number n]) d2)
    (λ d3, bind_exn (optionally (kw_sort kw) (λ d s, sort_val d [s]) d3)
    (λ d4, bind_exn (optionally (kw_one kw) one_val d4)
    (λ d5, bind_exn (optionally (kw_projection_model kw)
                       (λ d m, copy_update_val d [Set_projection_model (Some m)]) d5)
    (λ d6, optionally (kw_session kw)
             (λ d s, inr (with_session (Some s) d)) d6)))))).

Definition find_one_val (d : FindQuery) (args : list Expr) (kw : FindKwargs)
  : Exn + FindQuery :=
  bind_exn (find_val d args kw) (λ d', one_val d' true).

(** The transforms of the builder, with their arguments. *)
Inductive Transform : Type :=
| T_limit (limit_number : Z)
| T_skip (skip_number : Z)
| T_project (projection_model : option Model)
| T_one (is_single : bool)
| T_sort (args : list PyVal)
| T_find (args : list Expr) (kw : FindKwargs)
| T_find_many (args : list Expr) (kw : FindKwargs)
| T_find_one (args : list Expr) (kw : FindKwargs)
| T_set_session (session : option Session).

Definition apply_transform (T : Transform) (self : loc) : M loc :=
  match T with
  | T_limit n => limit self n
  | T_skip n => skip self n
  | T_project m => project self m
  | T_one b => one self b
  | T_sort args => sort self args
  | T_find args kw => find self args kw
  | T_find_many args kw => find_many self args kw
  | T_find_one args kw => find_one self args kw
  | T_set_session s => set_session self s
  end.

Definition transform_val (T : Transform) (d : FindQuery) : Exn + FindQuery :=
  match T with
  | T_limit n => copy_update_val d [Set_limit_number n]
  | T_skip n => copy_update_val d [Set_skip_number n]
  | T_project m => copy_update_val d [Set_projection_model m]
  | T_one b => one_val d b
  | T_sort args => sort_val d args
  | T_find args kw | T_find_many args kw => find_val d args kw
  | T_find_one args kw => find_one_val d args kw
  | T_set_session s => inr (with_session s d)
  end.

(** What a run of the builder leaves to its caller: the fields of the
    object it returned, or the exception. *)
Definition outcome (r : gmap loc FindQuery * (Exn + loc)) : Exn + FindQuery :=
  match r with
  | (σ, inr res) =>
      match σ !! res with
      | Some d => inr d
      | None => inl InvalidReference
      end
  | (_, inl e) => inl e
  end.

(** A sort argument of the documented kinds: a string, or a pair of a
    field name and a direction. *)
Definition is_sort_spec (v : PyVal) : bool :=
  match v with
  | VStr _ => true
  | VTuple [VStr _; VDir _] => true
  | _ => false
  end.

(** The key a sort argument stands for. *)
Definition sort_key (v : PyVal) : option (string * SortDirection) :=
  match v with
  | VStr s =>
      if startswith s "+"%char then Some (slice_from_1 s, ASCENDING)
      else if startswith s "-"%char then Some (slice_from_1 s, DESCENDING)
      else Some (s, ASCENDING)
  | VTuple [VStr f; VDir d] => Some (f, d)
  | _ => None
  end.

Definition sort_keys (items : list PyVal) : list (string * SortDirection) :=
  omap sort_key items.

(** [keeps g f]: the step [f] of the builder, when it succeeds, leaves
    the reading [g] of the fields as it was. *)
Definition keeps {B : Type} (g : FindQuery → B)
    (f : FindQuery → Exn + FindQuery) : Prop :=
  ∀ d d', f d = inr d' → g d' = g d.

(** An entry of a sort list of the declared type: [None] or a sort
    argument. *)
Definition none_or_spec (v : PyVal) : bool := is_None v || is_sort_spec v.

(** [runs_at strict m σ self d out]: run on the store [σ], where [self]
    has the fields [d], the computation [m] keeps every object of [σ] as
    it is and returns an object with the fields [out] (or raises the
    exception [out]); the object is new, or, when [strict] is off,
    possibly [self] itself with its fields. *)
Definition runs_at (strict : bool) (m : M loc)
    (σ : gmap loc FindQuery) (self : loc) (d : FindQuery)
    (out : Exn + FindQuery) : Prop :=
  σ ⊆ (m σ).1 ∧
  match out with
  | inr d' =>
      ∃ res, (m σ).2 = inr res ∧ (m σ).1 !! res = Some d' ∧
             (σ !! res = None ∨ (strict = false ∧ res = self ∧ d' = d))
  | inl e => (m σ).2 = inl e
  end.

(** [runs_as strict m v]: the setter [m] produces the fields [v d] from
    the fields [d] of [self], on every store. *)
Definition runs_as (strict : bool) (m : loc → M loc)
    (v : FindQuery → Exn + FindQuery) : Prop :=
  ∀ (σ : gmap loc FindQuery) self d,
    σ !! self = Some d → runs_at strict (m self) σ self d (v d).

End Values.

(** ** A query and a store to run the builder on *)

Definition example_query : @FindQuery string string nat unit :=
  mkFindQuery None "Doc" ["p"] "Doc" [("age", DESCENDING)] 0 50 false None.

Definition example_store : gmap loc (@FindQuery string string nat unit) :=
  {[ 1%positive := example_query ]}.

(** A collection that holds no record a query finds and counts seven
    records for every filter. *)
Definition example_collection : @Collection string nat nat string :=
  mkCollection (λ _, inr None) (λ _, inr 7).

(** ** Facts about the store and the setters *)

Section StoreFacts.
Context {Model Expr Session Cursor : Type}.
#[local] Abbreviation FindQuery := (@FindQuery Model Expr Session Cursor).
#[local] Abbreviation FindKwargs := (@FindKwargs Model Session).
#[local] Abbreviation M := (@M Model Expr Session Cursor).
#[local] Abbreviation Assign := (@Assign Model Expr).
#[local] Abbreviation runs_as := (@runs_as Model Expr Session Cursor).
Implicit Types (σ : gmap loc FindQuery) (d : FindQuery) (self res : loc).
Implicit Types (kwargs : list Assign) (kw : FindKwargs).

Lemma fresh_lookup σ : σ !! fresh (dom σ) = None.
Proof. apply not_elem_of_dom, is_fresh. Qed.

Lemma insert_fresh_subseteq σ d : σ ⊆ <[fresh (dom σ) := d]> σ.
Proof. apply insert_subseteq, fresh_lookup. Qed.

Lemma setattr_all_run σ res d kwargs :
  σ !! res = Some d →
  setattr_all res kwargs σ
  = (<[res := (assign_all d kwargs).1]> σ, (assign_all d kwargs).2).
Proof.
  revert σ d. induction kwargs as [|kv rest IH]; intros σ d Hres; simpl.
  - by rewrite insert_id.
  - unfold mbind, M_bind, setattr. rewrite Hres.
    destruct (validate_assignment d kv) as [e|d'] eqn:Hkv; simpl.
    + by rewrite insert_id.
    + rewrite (IH (<[res := d']> σ) d'); last by rewrite lookup_insert_eq.
      by rewrite insert_insert_eq.
Qed.

Lemma copy_update_run σ self d kwargs :
  σ !! self = Some d →
  _copy_update self kwargs σ
  = (<[fresh (dom σ) := (assign_all d kwargs).1]> σ,
     match (assign_all d kwargs).2 with
     | inr _ => inr (fresh (dom σ))
     | inl e => inl e
     end).
Proof.
  intros Hself. unfold _copy_update, copy, alloc, deref, mbind, M_bind.
  rewrite Hself.
  rewrite (setattr_all_run _ _ d); last by rewrite lookup_insert_eq.
  rewrite insert_insert_eq.
  by destruct (assign_all d kwargs) as [d' [e|[]]].
Qed.

Lemma runs_as_copy_update kwargs :
  runs_as true (λ self, _copy_update self kwargs)
               (λ d, copy_update_val d kwargs).
Proof.
  intros σ self d Hself. unfold runs_at.
  rewrite (copy_update_run _ _ d); [|done].
  unfold copy_update_val. simpl. split; first apply insert_fresh_subseteq.
  destruct (assign_all d kwargs) as [d' [e|[]]]; simpl; first done.
  exists (fresh (dom σ)). rewrite lookup_insert_eq.
  split_and!; [done..|]. left. apply fresh_lookup.
Qed.

Lemma runs_as_set_session s :
  runs_as true (λ self, set_session self s)
               (λ d, inr (with_session s d)).
Proof.
  intros σ self d Hself.
  unfold runs_at, set_session, alloc, deref, mbind, M_bind.
  rewrite Hself. simpl.
  split; first apply insert_fresh_subseteq.
  exists (fresh (dom σ)). rewrite lookup_insert_eq.
  split_and!; [done..|]. left. apply fresh_lookup.
Qed.

Lemma runs_at_weaken strict m σ self d out :
  runs_at true m σ self d out → runs_at strict m σ self d out.
Proof.
  intros [Hsub Hv]. split; first done.
  destruct out as [e|d']; first done.
  destruct Hv as (res & ? & ? & [?|(? & _)]); last done.
  exists res. split_and!; [done..|]. by left.
Qed.

Lemma runs_as_weaken strict m v : runs_as true m v → runs_as strict m v.
Proof. intros Hm σ self d Hself. by apply runs_at_weaken, Hm. Qed.

Lemma runs_as_mret : runs_as false (λ self, mret self) inr.
Proof.
  intros σ self d Hself. split; first done.
  exists self. split_and!; [done..|]. by right.
Qed.

Lemma runs_as_optionally {A : Type} (o : option A) f fv :
  (∀ a, runs_as true (λ self, f self a) (λ d, fv d a)) →
  runs_as false
    (λ self, match o with Some a => f self a | None => mret self end)
    (optionally o fv).
Proof.
  intros Hf. destruct o as [a|]; simpl.
  - apply runs_as_weaken, Hf.
  - apply runs_as_mret.
Qed.

Lemma runs_at_deref strict (k : FindQuery → M loc) σ self d out :
  σ !! self = Some d →
  runs_at strict (k d) σ self d out →
  runs_at strict (d0 ← deref self; k d0) σ self d out.
Proof.
  intros Hself Hk. unfold runs_at, mbind, M_bind, deref in *.
  by rewrite Hself.
Qed.

Lemma runs_at_bind s1 s2 (m : M loc) g gv σ self d out :
  runs_at s1 m σ self d out → runs_as s2 g gv →
  runs_at (s1 || s2) (r ← m; g r) σ self d (bind_exn out gv).
Proof.
  intros [Hsub Hv] Hg. unfold runs_at, mbind, M_bind.
  destruct (m σ) as [σ1 [e|r]] eqn:Hrun; simpl in *.
  - destruct out as [e'|d1]; simpl.
    + by simplify_eq.
    + by destruct Hv as (? & ? & _).
  - destruct out as [e'|d1]; simpl; first done.
    destruct Hv as (res & [= <-] & Hr & Hnew).
    destruct (Hg σ1 r d1 Hr) as [Hsub' Hv'].
    split; first by etrans.
    destruct (gv d1) as [e2|d2]; first done.
    destruct Hv' as (res' & Hout & Hres' & Hnew').
    exists res'. split_and!; [done..|].
    destruct Hnew' as [Hnone|(-> & -> & ->)].
    + left. by eapply lookup_weaken_None.
    + destruct Hnew as [?|(-> & -> & ->)]; first by left.
      right. by rewrite orb_false_r.
Qed.

Lemma runs_as_bind s1 s2 f fv g gv :
  runs_as s1 f fv → runs_as s2 g gv →
  runs_as (s1 || s2) (λ self, r ← f self; g r) (λ d, bind_exn (fv d) gv).
Proof.
  intros Hf Hg σ self d Hself. by apply runs_at_bind; [apply Hf|].
Qed.

Lemma bind_exn_inr {A : Type} (x : Exn + A) : bind_exn x inr = x.
Proof. by destruct x. Qed.

Lemma runs_as_bind_mret strict f fv :
  runs_as strict f fv → runs_as strict (λ self, r ← f self; mret r) fv.
Proof.
  intros Hf σ self d Hself.
  pose proof (runs_at_bind strict false _ _ _ σ self d _
                (Hf σ self d Hself) runs_as_mret) as H.
  by rewrite bind_exn_inr, orb_false_r in H.
Qed.

Lemma outcome_runs_as strict m v σ self d :
  runs_as strict m v → σ !! self = Some d → outcome (m self σ) = v d.
Proof.
  intros Hm Hself. destruct (Hm σ self d Hself) as [_ Hv].
  destruct (m self σ) as [σ' out]; simpl in *.
  destruct (v d) as [e|d'].
  - by subst out.
  - destruct Hv as (res & -> & -> & _). done.
Qed.

Lemma sort1_run self : ∀ arg,
  sort1 self arg
  = match sort_items1 arg return M loc with
    | None => raise (ValueError "'sort()' requires arguments.")
    | Some items => sort_assign self items
    end.
Proof.
  fix IH 1. intros [ |z|s|d|items|items]; try reflexivity.
  destruct items as [|arg0 [|arg1 rest]]; try reflexivity.
  simpl. apply IH.
Qed.

Lemma sort_run self args :
  sort self args
  = match sort_items args return M loc with
    | None => raise (ValueError "'sort()' requires arguments.")
    | Some items => sort_assign self items
    end.
Proof.
  destruct args as [|arg0 [|arg1 rest]]; try reflexivity.
  apply sort1_run.
Qed.

(** [sort] as the source writes it (find.py, lines 146-153). *)
Lemma sort_eq self args :
  sort self args
  = match args return M loc with
    | [] => raise (ValueError "'sort()' requires arguments.")
    | [VList items] => sort self items
    | _ => sort_assign self args
    end.
Proof.
  destruct args as [|arg0 [|arg1 rest]]; first reflexivity.
  - by destruct arg0.
  - by destruct arg0 as [ |z|s|d|items|[|a [|b items]]].
Qed.

Lemma runs_as_sort_assign items :
  runs_as true (λ self, sort_assign self items)
               (λ d, sort_assign_val d items).
Proof.
  intros σ self d Hself. unfold sort_assign, sort_assign_val.
  apply runs_at_deref; first done. by apply runs_as_copy_update.
Qed.

Lemma runs_as_sort args :
  runs_as true (λ self, sort self args) (λ d, sort_val d args).
Proof.
  intros σ self d Hself. rewrite sort_run. unfold sort_val.
  destruct (sort_items args) as [items|].
  - by apply runs_as_sort_assign.
  - done.
Qed.

Lemma runs_as_limit n :
  runs_as true (λ self, limit self n)
               (λ d, copy_update_val d [Set_limit_number n]).
Proof. apply runs_as_copy_update. Qed.

Lemma runs_as_skip n :
  runs_as true (λ self, skip self n)
               (λ d, copy_update_val d [Set_skip_number n]).
Proof. apply runs_as_copy_update. Qed.

Lemma runs_as_one b :
  runs_as true (λ self, one self b) (λ d, one_val d b).
Proof. apply runs_as_copy_update. Qed.

Lemma runs_as_find args kw :
  runs_as true (λ self, find self args kw) (λ d, find_val d args kw).
Proof.
  intros σ self d Hself. unfold find, find_val.
  apply runs_at_deref; first done.
  apply (runs_at_bind true false).
  { by apply runs_as_copy_update. }
  apply (runs_as_bind false false).
  { apply (runs_as_optionally (kw_skip kw) skip).
    intros n. apply runs_as_copy_update. }
  apply (runs_as_bind false false).
  { apply (runs_as_optionally (kw_limit kw) limit).
    intros n. apply runs_as_copy_update. }
  apply (runs_as_bind false false).
  { apply (runs_as_optionally (kw_sort kw) (λ self s, sort self [s])).
    intros s. apply runs_as_sort. }
  apply (runs_as_bind false false).
  { apply (runs_as_optionally (kw_one kw) one). apply runs_as_one. }
  apply (runs_as_bind false false).
  { apply (runs_as_optionally (kw_projection_model kw)
             (λ self m, project self (Some m))).
    intros m. apply runs_as_copy_update. }
  apply runs_as_bind_mret.
  apply (runs_as_optionally (kw_session kw)
           (λ self s, set_session self (Some s))
           (λ d s, inr (with_session (Some s) d))).
  intros s. apply runs_as_set_session.
Qed.

Lemma runs_as_find_one args kw :
  runs_as true (λ self, find_one self args kw) (λ d, find_one_val d args kw).
Proof.
  apply (runs_as_bind true true); [apply runs_as_find | apply runs_as_one].
Qed.

Lemma runs_as_transform (T : Transform) :
  runs_as true (apply_transform T) (transform_val T).
Proof.
  destruct T; simpl.
  - apply runs_as_copy_update.
  - apply runs_as_copy_update.
  - apply runs_as_copy_update.
  - apply runs_as_one.
  - apply runs_as_sort.
  - apply runs_as_find.
  - apply runs_as_find.
  - apply runs_as_find_one.
  - apply runs_as_set_session.
Qed.

End StoreFacts.

(** ** Facts about the validation of [sort_expressions] *)

Section ValidationFacts.
Implicit Types (v : PyVal) (val items : list PyVal).
Implicit Types (k : string * SortDirection) (place : list LocItem).

Lemma validate_tuple_nonempty place v : validate_tuple place v ≠ inl [].
Proof.
  unfold validate_tuple. repeat case_match; discriminate.
Qed.

Lemma validate_sort_item_nonempty norm place v :
  validate_sort_item_with norm place v ≠ inl [].
Proof.
  unfold validate_sort_item_with. repeat case_match; try discriminate.
  apply validate_tuple_nonempty.
Qed.

Lemma validate_sequence_like_ok {A : Type}
    (f : list LocItem → PyVal → list ErrorWrapper + A) place i val
    (ks : list A) :
  Forall2 (λ x r, ∀ p, f p x = inr r) val ks →
  validate_sequence_like f place i val = ([], ks).
Proof.
  intros H. revert i. induction H as [|x r val ks Hx _ IH]; intros i.
  - reflexivity.
  - simpl. rewrite IH, Hx. reflexivity.
Qed.

Lemma validate_sequence_like_inv {A : Type}
    (f : list LocItem → PyVal → list ErrorWrapper + A) place i val
    (ks : list A) :
  (∀ p x, f p x ≠ inl []) →
  validate_sequence_like f place i val = ([], ks) →
  Forall2 (λ x r, ∃ p, f p x = inr r) val ks.
Proof.
  intros Hf. revert i ks. induction val as [|x val IH]; intros i ks; simpl.
  - intros [= <-]. constructor.
  - destruct (validate_sequence_like f place (S i) val)
      as [errors result] eqn:Hrest.
    destruct (f (place ++ [LIndex i]) x) as [ee|r] eqn:Hx.
    + intros [= Hnil _]. apply app_eq_nil in Hnil as [-> _].
      by destruct (Hf _ _ Hx).
    + intros [= -> <-]. constructor; [by eexists|by eapply IH].
Qed.

Lemma validate_sequence_like_ext
    (norm norm' : PyVal → Cause + PyVal) place i val :
  Forall (λ x, is_None x = false) val →
  (∀ x, is_None x = false → norm x = norm' x) →
  validate_sequence_like (validate_sort_item_with norm) place i val
  = validate_sequence_like (validate_sort_item_with norm') place i val.
Proof.
  intros Hval Hnorm. revert i.
  induction Hval as [|x val Hx _ IH]; intros i; simpl; first done.
  rewrite IH. unfold validate_sort_item_with. by rewrite (Hnorm x Hx).
Qed.

Lemma validate_sort_no_none_Forall val :
  Forall (λ x, is_None x = false) (validate_sort_no_none val).
Proof.
  unfold validate_sort_no_none. induction val as [|x val IH]; simpl.
  - constructor.
  - destruct (is_None x) eqn:Hx; simpl; [done|by constructor].
Qed.

(** A documented sort argument is normalised to the tuple of its key,
    which the check of [Tuple[str, SortDirection]] accepts as it is. *)
Lemma sort_spec_validates v :
  is_sort_spec v = true →
  ∃ k, sort_key v = Some k ∧ is_None v = false ∧
       validate_sort_items v = inr (sort_key_value k) ∧
       ∀ place, validate_sort_item_with validate_sort_items place v = inr k.
Proof.
  destruct v as [ |z|s|d|items|items]; try discriminate; simpl.
  - intros _. unfold validate_sort_item_with, validate_sort_items. simpl.
    destruct (startswith s "+") eqn:Hplus;
      [|destruct (startswith s "-") eqn:Hminus];
      eexists; (split_and!; [reflexivity..|done]).
  - destruct items as [|[ |z|f|d|?|?] [|[ |z'|f'|d'|?|?] [|? ?]]];
      try discriminate.
    intros _. by exists (f, d').
Qed.

Lemma sort_key_value_spec k :
  is_sort_spec (sort_key_value k) = true ∧ sort_key (sort_key_value k) = Some k.
Proof. by destruct k. Qed.

Lemma sort_keys_stored (ks : list (string * SortDirection)) :
  sort_keys (map sort_key_value ks) = ks.
Proof.
  unfold sort_keys. induction ks as [|[f d] ks IH]; simpl; first done.
  f_equal. exact IH.
Qed.

Lemma sort_keys_app items items' :
  sort_keys (items ++ items') = sort_keys items ++ sort_keys items'.
Proof. apply omap_app. Qed.

Lemma none_or_spec_Forall2 val :
  Forall (λ x, none_or_spec x = true) val →
  Forall2 (λ x k, validate_sort_items x = inr (sort_key_value k) ∧
                  ∀ place, validate_sort_item_with validate_sort_items place x = inr k)
          (validate_sort_no_none val) (sort_keys val).
Proof.
  unfold validate_sort_no_none, sort_keys.
  induction 1 as [|x val Hx _ IH]; simpl; first constructor.
  unfold none_or_spec in Hx. destruct (is_None x) eqn:Hnone; simpl.
  - destruct x; try discriminate. done.
  - destruct (sort_spec_validates x Hx) as (k & -> & _ & Hnorm & Hitem).
    simpl. by constructor.
Qed.

Lemma validate_sort_expressions_specs val :
  Forall (λ x, none_or_spec x = true) val →
  validate_sort_expressions val = inr (sort_keys val).
Proof.
  intros Hval. unfold validate_sort_expressions, validate_sort_expressions_with.
  rewrite (validate_sequence_like_ok _ _ _ _ (sort_keys val)); first done.
  eapply Forall2_impl; first by apply none_or_spec_Forall2.
  by intros x k [_ ?].
Qed.

Lemma stored_keys_none_or_spec (ks : list (string * SortDirection)) :
  Forall (λ x, none_or_spec x = true) (map sort_key_value ks).
Proof.
  induction ks as [|k ks IH]; simpl; constructor; [|done].
  unfold none_or_spec. destruct (sort_key_value_spec k) as [-> _].
  apply orb_true_r.
Qed.

(** Assigning new items in front of stored keys puts their keys in
    front and keeps the stored ones. *)
Lemma validate_sort_expressions_prepend items ks :
  Forall (λ x, none_or_spec x = true) items →
  validate_sort_expressions (items ++ map sort_key_value ks)
  = inr (sort_keys items ++ ks).
Proof.
  intros Hitems. rewrite validate_sort_expressions_specs.
  - by rewrite sort_keys_app, sort_keys_stored.
  - apply Forall_app. split; [done|apply stored_keys_none_or_spec].
Qed.

End ValidationFacts.

(** ** Properties of the validators *)

(** C7. Normalisation of an item of a sort list ([validate_sort_items]):
    a string ["+field"] gives [(field, ascending)], ["-field"] gives
    [(field, descending)], a bare ["field"] (no leading [+] or [-]) gives
    [(field, ascending)]; a tuple is returned unchanged; an item that is
    neither [None], a tuple nor a string fails with the [TypeError]
    "Wrong sort type" (the spec's [InvalidSortSpecification]). *)
Theorem validate_sort_items_normalises :
  (∀ field, validate_sort_items (VStr ("+" +:+ field))
            = inr (VTuple [VStr field; VDir ASCENDING]))
  ∧ (∀ field, validate_sort_items (VStr ("-" +:+ field))
              = inr (VTuple [VStr field; VDir DESCENDING]))
  ∧ (∀ field, startswith field "+" = false → startswith field "-" = false →
              validate_sort_items (VStr field)
              = inr (VTuple [VStr field; VDir ASCENDING]))
  ∧ (∀ items, validate_sort_items (VTuple items) = inr (VTuple items))
  ∧ (∀ v, is_None v = false → is_tuple v = false → is_str v = false →
          validate_sort_items v = inl (TypeError "Wrong sort type")).
Proof.
  split_and!.
  - reflexivity.
  - reflexivity.
  - intros field Hplus Hminus. unfold validate_sort_items. simpl.
    by rewrite Hplus, Hminus.
  - reflexivity.
  - intros [ |z|s|d|items|items] Hnone Htuple Hstr; try discriminate;
      reflexivity.
Qed.

Lemma validate_sort_items_normalises_witness :
  validate_sort_items (VStr "name") = inr (VTuple [VStr "name"; VDir ASCENDING])
  ∧ validate_sort_items (VInt 3) = inl (TypeError "Wrong sort type")
  ∧ validate_sort_items (VList [VStr "name"]) = inl (TypeError "Wrong sort type").
Proof.
  destruct validate_sort_items_normalises as (_ & _ & Hbare & _ & Hother).
  split_and!; [apply Hbare; reflexivity | apply Hother; reflexivity..].
Defined.

(** C8. In the validation of a list assigned to [sort_expressions] the
    pass that drops [None] comes before the normalisation of the items.
    The result does not depend on what the normaliser does on [None] (it
    is never given one), and it is the result for the list with its
    [None] entries taken out beforehand.  When the assignment succeeds,
    the keys stored are, one for one and in order, those of the entries
    of the list that are not [None]: each is the tuple
    [validate_sort_items] returns for its entry, as the check of
    [Tuple[str, SortDirection]] reads it.  For a list of the declared
    type ([None], strings and pairs) the assignment succeeds and stores
    exactly the tuples [validate_sort_items] returns for the entries that
    are not [None]. *)
Theorem none_filtered_before_normalisation
    (val : list PyVal) (norm : PyVal → Cause + PyVal) :
  (∀ v, is_None v = false → norm v = validate_sort_items v) →
  validate_sort_expressions_with norm val = validate_sort_expressions val
  ∧ validate_sort_expressions val
    = validate_sort_expressions (List.filter (λ v, negb (is_None v)) val)
  ∧ (∀ keys, validate_sort_expressions val = inr keys →
       Forall2 (λ v k, ∃ v', validate_sort_items v = inr v' ∧
                             ∃ place, validate_tuple place v' = inr k)
               (List.filter (λ v, negb (is_None v)) val) keys)
  ∧ (Forall (λ v, none_or_spec v = true) val →
       validate_sort_expressions val = inr (sort_keys val)
       ∧ Forall2 (λ v k, validate_sort_items v = inr (sort_key_value k))
                 (List.filter (λ v, negb (is_None v)) val) (sort_keys val)).
Proof.
  intros Hnorm. split_and!.
  - unfold validate_sort_expressions, validate_sort_expressions_with.
    by rewrite (validate_sequence_like_ext norm validate_sort_items);
      [|apply validate_sort_no_none_Forall|].
  - unfold validate_sort_expressions, validate_sort_expressions_with,
      validate_sort_no_none.
    assert (List.filter (λ v, negb (is_None v))
              (List.filter (λ v, negb (is_None v)) val)
            = List.filter (λ v, negb (is_None v)) val) as ->; last done.
    induction val as [|v val IH]; simpl; first done.
    destruct (is_None v) eqn:Hv; simpl; first done.
    rewrite Hv. simpl. by f_equal.
  - intros keys. unfold validate_sort_expressions, validate_sort_expressions_with.
    destruct (validate_sequence_like _ _ _ _) as [[|e errors] result] eqn:Hrun;
      [|discriminate].
    intros [= <-].
    apply validate_sequence_like_inv in Hrun;
      [|apply validate_sort_item_nonempty].
    unfold validate_sort_no_none in Hrun.
    eapply Forall2_impl; first exact Hrun.
    intros v k [place Hv]. unfold validate_sort_item_with in Hv.
    destruct (validate_sort_items v) as [e|v']; first discriminate.
    exists v'. split; first done. exists place.
    by destruct (is_None v').
  - intros Hval. split.
    + by apply validate_sort_expressions_specs.
    + pose proof (none_or_spec_Forall2 val Hval) as H.
      unfold validate_sort_no_none in H.
      eapply Forall2_impl; first exact H.
      by intros v k [? _].
Qed.

Lemma none_filtered_before_normalisation_witness :
  validate_sort_expressions_with
    (λ v, if is_None v then inl (TypeError "None") else validate_sort_items v)
    [VNone; VStr "-age"; VTuple [VStr "name"; VDir ASCENDING]; VNone]
  = validate_sort_expressions
      [VNone; VStr "-age"; VTuple [VStr "name"; VDir ASCENDING]; VNone]
  ∧ validate_sort_expressions
      [VNone; VStr "-age"; VTuple [VStr "name"; VDir ASCENDING]; VNone]
    = inr [("age", DESCENDING); ("name", ASCENDING)].
Proof.
  destruct (none_filtered_before_normalisation
              [VNone; VStr "-age"; VTuple [VStr "name"; VDir ASCENDING]; VNone]
              (λ v, if is_None v then inl (TypeError "None")
                    else validate_sort_items v))
    as (Heq & _ & _ & Htyped).
  - intros v Hv. rewrite Hv. reflexivity.
  - split; [exact Heq|]. apply Htyped. repeat constructor.
Defined.

(** ** Properties of the builder *)

Section BuilderProperties.
Context {Model Expr Session Cursor : Type}.
#[local] Abbreviation FindQuery := (@FindQuery Model Expr Session Cursor).
#[local] Abbreviation FindKwargs := (@FindKwargs Model Session).
#[local] Abbreviation M := (@M Model Expr Session Cursor).
#[local] Abbreviation Transform := (@Transform Model Expr Session).
Implicit Types (σ : gmap loc FindQuery) (d : FindQuery) (self res : loc).
Implicit Types (kw : FindKwargs).

Lemma sort_items_specs (args : list PyVal) :
  args ≠ [] → Forall (λ v, is_sort_spec v = true) args →
  sort_items args = Some args ∧ sort_items [VList args] = Some args.
Proof.
  intros Hne Hargs. destruct Hargs as [|v args Hv Hargs]; first done.
  destruct Hargs as [|v' args Hv' Hargs]; simpl.
  - by destruct v as [ |z|s|dir|items|items].
  - done.
Qed.

Lemma specs_none_or_spec (args : list PyVal) :
  Forall (λ v, is_sort_spec v = true) args →
  Forall (λ v, none_or_spec v = true) args.
Proof.
  intros Hargs. eapply Forall_impl; first exact Hargs.
  intros v Hv. unfold none_or_spec. rewrite Hv. apply orb_true_r.
Qed.

Lemma sort_assign_val_specs d (items : list PyVal) :
  Forall (λ v, none_or_spec v = true) items →
  sort_assign_val d items
  = inr (with_sort_expressions (sort_keys items ++ sort_expressions d) d).
Proof.
  intros Hitems. unfold sort_assign_val, copy_update_val. simpl.
  by rewrite validate_sort_expressions_prepend.
Qed.

Lemma sort_val_specs d (args : list PyVal) :
  args ≠ [] → Forall (λ v, is_sort_spec v = true) args →
  sort_val d args
  = inr (with_sort_expressions (sort_keys args ++ sort_expressions d) d)
  ∧ sort_val d [VList args]
    = inr (with_sort_expressions (sort_keys args ++ sort_expressions d) d).
Proof.
  intros Hne Hargs. unfold sort_val.
  destruct (sort_items_specs args Hne Hargs) as [-> ->].
  by rewrite sort_assign_val_specs; [|apply specs_none_or_spec].
Qed.

(** C1. Every transform of the builder ([limit], [skip], [project],
    [one], [sort], [find] / [find_many], [find_one], [set_session]) is
    pure: run on [self], it leaves every object of the store, [self]
    included, with the fields it had; what it returns is a new object,
    different from [self]; and [self] behaves afterwards as before:
    any transform gives on it what it gave before. *)
Theorem transforms_are_pure (T : Transform) σ self d :
  σ !! self = Some d →
  (∀ l d0, σ !! l = Some d0 → (apply_transform T self σ).1 !! l = Some d0)
  ∧ (apply_transform T self σ).1 !! self = Some d
  ∧ (∀ res, (apply_transform T self σ).2 = inr res →
       res ≠ self ∧ σ !! res = None ∧
       ∃ d', (apply_transform T self σ).1 !! res = Some d'
             ∧ transform_val T d = inr d')
  ∧ (∀ T' : Transform,
       outcome (apply_transform T' self (apply_transform T self σ).1)
       = outcome (apply_transform T' self σ)).
Proof.
  intros Hself.
  destruct (runs_as_transform T σ self d Hself) as [Hsub Hv].
  assert ((apply_transform T self σ).1 !! self = Some d) as Hself'
    by (by eapply lookup_weaken).
  split_and!.
  - intros l d0 Hl. by eapply lookup_weaken.
  - done.
  - intros res Hres. destruct (transform_val T d) as [e|d'].
    + congruence.
    + destruct Hv as (res' & Hout & Hlook & [Hnew|(? & _)]); last done.
      assert (res' = res) as -> by congruence.
      split_and!; [congruence|done|by exists d'].
  - intros T'.
    rewrite (outcome_runs_as true _ _ _ _ d (runs_as_transform T') Hself').
    by rewrite (outcome_runs_as true _ _ _ _ d (runs_as_transform T') Hself).
Qed.

(** C9. [sort] called without arguments raises the [ValueError]
    "'sort()' requires arguments." (the spec's [EmptySortCall]) at once:
    the store, and so [self], is as before, and no object is returned. *)
Theorem sort_without_arguments_raises σ self :
  sort self [] σ = (σ, inl (ValueError "'sort()' requires arguments."))
  ∧ ∀ res, (sort self [] σ).2 ≠ inr res.
Proof. split; [reflexivity|discriminate]. Qed.

(** C3. [sort] with a non-empty list of sort arguments (strings or
    pairs), given one by one or as one list, puts their normalised keys
    in front of the keys [self] already has, which follow in their order;
    [Q.sort("a").sort("b")] has the keys [(b, ascending)], [(a, ascending)]
    followed by those of [Q]. *)
Theorem sort_prepends σ self d (args : list PyVal) :
  σ !! self = Some d →
  args ≠ [] →
  Forall (λ v, is_sort_spec v = true) args →
  outcome (sort self args σ)
  = inr (with_sort_expressions (sort_keys args ++ sort_expressions d) d)
  ∧ outcome (sort self [VList args] σ)
    = inr (with_sort_expressions (sort_keys args ++ sort_expressions d) d)
  ∧ Forall2 (λ v k, validate_sort_items v = inr (sort_key_value k))
            args (sort_keys args)
  ∧ outcome ((r ← sort self [VStr "a"]; sort r [VStr "b"]) σ)
    = inr (with_sort_expressions
             ([("b", ASCENDING); ("a", ASCENDING)] ++ sort_expressions d) d).
Proof.
  intros Hself Hne Hargs.
  destruct (sort_val_specs d args Hne Hargs) as [Hval Hval'].
  split_and!.
  - by rewrite (outcome_runs_as true _ _ _ _ d (runs_as_sort args) Hself).
  - by rewrite (outcome_runs_as true _ _ _ _ d (runs_as_sort [VList args]) Hself).
  - clear Hval Hval' Hne. induction Hargs as [|v args Hv _ IH]; first constructor.
    destruct (sort_spec_validates v Hv) as (k & Hk & _ & Hnorm & _).
    unfold sort_keys in *. simpl. rewrite Hk. simpl. by constructor.
  - rewrite (outcome_runs_as true _ _ _ _ d
               (runs_as_bind true true _ _ _ _
                  (runs_as_sort [VStr "a"]) (runs_as_sort [VStr "b"])) Hself).
    destruct (sort_val_specs d [VStr "a"]) as [-> _]; [done|by repeat constructor|].
    simpl.
    destruct (sort_val_specs
                (with_sort_expressions (("a", ASCENDING) :: sort_expressions d) d)
                [VStr "b"]) as [-> _]; [done|by repeat constructor|].
    reflexivity.
Qed.

End BuilderProperties.

Lemma transforms_are_pure_witness :
  example_store !! 1%positive = Some example_query
  ∧ (apply_transform (T_find ["q"]
        (mkFindKwargs (Some 10) (Some 5) (Some (VStr "name")) (Some true)
           (Some "View") (Some 7%nat)))
       1%positive example_store).1 !! 1%positive = Some example_query.
Proof.
  split; [reflexivity|].
  apply (transforms_are_pure
           (T_find ["q"]
              (mkFindKwargs (Some 10) (Some 5) (Some (VStr "name")) (Some true)
                 (Some "View") (Some 7%nat)))
           example_store 1%positive example_query).
  reflexivity.
Defined.

Lemma sort_prepends_witness :
  example_store !! 1%positive = Some example_query
  ∧ [VStr "name"; VTuple [VStr "city"; VDir DESCENDING]] ≠ []
  ∧ outcome (sort 1%positive [VStr "name"; VTuple [VStr "city"; VDir DESCENDING]]
               example_store)
    = inr (with_sort_expressions
             [("name", ASCENDING); ("city", DESCENDING); ("age", DESCENDING)]
             example_query).
Proof.
  split; [reflexivity|]. split; [discriminate|].
  apply (sort_prepends example_store 1%positive example_query
           [VStr "name"; VTuple [VStr "city"; VDir DESCENDING]]).
  - reflexivity.
  - discriminate.
  - repeat constructor.
Defined.

(** ** Properties of [find], [one] and the execution *)

Section ExecutorProperties.
Context {Model Expr Session Cursor : Type}.
Context {RawDocument Document Projection : Type}.
Variable get_projection : Model → Projection.
Variable parse_obj : Model → RawDocument → Exn + Document.
#[local] Abbreviation FindQuery := (@FindQuery Model Expr Session Cursor).
#[local] Abbreviation FindKwargs := (@FindKwargs Model Session).
#[local] Abbreviation M := (@M Model Expr Session Cursor).
#[local] Abbreviation Collection :=
  (@Collection Expr Session RawDocument Projection).
#[local] Abbreviation Assign := (@Assign Model Expr).
Implicit Types (σ : gmap loc FindQuery) (d q : FindQuery) (self res : loc).
Implicit Types (kw : FindKwargs) (c : Collection).

Lemma one_val_eq d b :
  one_val d b = inr (with_limit_number 1 (with_is_single b d)).
Proof. reflexivity. Qed.

Lemma copy_update_val_one d (kv : Assign) :
  copy_update_val d [kv] = validate_assignment d kv.
Proof.
  unfold copy_update_val. simpl. by destruct (validate_assignment d kv).
Qed.

(** An assignment changes the field it names and no other. *)
Lemma validate_assignment_fields d (kv : Assign) d' :
  validate_assignment d kv = inr d' →
  (match kv with
   | Set_find_expressions _ => True
   | _ => find_expressions d' = find_expressions d
   end)
  ∧ (match kv with
     | Set_limit_number _ => True
     | _ => limit_number d' = limit_number d
     end)
  ∧ (match kv with
     | Set_is_single _ => True
     | _ => is_single d' = is_single d
     end).
Proof.
  destruct kv; simpl; unfold validate_conint_ge0;
    repeat case_match; intros; by simplify_eq.
Qed.

Lemma keeps_optionally {A B : Type} (g : FindQuery → B) (o : option A) fv :
  (∀ a, keeps g (λ d, fv d a)) → keeps g (optionally o fv).
Proof.
  intros Hfv d d'. destruct o as [a|]; simpl.
  - apply Hfv.
  - by intros [= ->].
Qed.

Lemma keeps_sort_val {B : Type} (g : FindQuery → B) (args : list PyVal) :
  (∀ v d, g (with_sort_expressions v d) = g d) →
  keeps g (λ d, sort_val d args).
Proof.
  intros Hg d d'. unfold sort_val, sort_assign_val.
  destruct (sort_items args) as [items|]; last done.
  rewrite copy_update_val_one. simpl.
  destruct (validate_sort_expressions _) as [errors|keys]; first done.
  intros [= <-]. apply Hg.
Qed.

(** What [find] leaves in the fields it sets first and those [one] sets. *)
Lemma find_val_inv d (args : list Expr) kw d' :
  find_val d args kw = inr d' →
  find_expressions d' = find_expressions d ++ args
  ∧ (∀ b, kw_one kw = Some b → limit_number d' = 1 ∧ is_single d' = b).
Proof.
  unfold find_val. rewrite copy_update_val_one. simpl. intros H.
  destruct (optionally (kw_skip kw) _ _) as [?|d2] eqn:H2;
    [discriminate|]; simpl in H.
  destruct (optionally (kw_limit kw) _ _) as [?|d3] eqn:H3;
    [discriminate|]; simpl in H.
  destruct (optionally (kw_sort kw) _ _) as [?|d4] eqn:H4;
    [discriminate|]; simpl in H.
  destruct (optionally (kw_one kw) _ _) as [?|d5] eqn:H5;
    [discriminate|]; simpl in H.
  destruct (optionally (kw_projection_model kw) _ _) as [?|d6] eqn:H6;
    [discriminate|]; simpl in H.
  assert (∀ n, keeps find_expressions (λ d, copy_update_val d [Set_skip_number n])
             ∧ keeps find_expressions (λ d, copy_update_val d [Set_limit_number n]))
    as Hnum.
  { intros n. split; intros q q'; rewrite copy_update_val_one;
      intros Hq; by apply validate_assignment_fields in Hq as (? & _). }
  assert (∀ m, keeps find_expressions
                 (λ d, copy_update_val d [Set_projection_model (Some m)])
             ∧ keeps limit_number
                 (λ d, copy_update_val d [Set_projection_model (Some m)])
             ∧ keeps is_single
                 (λ d, copy_update_val d [Set_projection_model (Some m)]))
    as Hproj.
  { intros m. split_and!; intros q q'; rewrite copy_update_val_one;
      intros Hq; by apply validate_assignment_fields in Hq as (? & ? & ?). }
  split.
  - apply (keeps_optionally find_expressions) in H; [|by intros s q q' [= <-]].
    apply (keeps_optionally find_expressions) in H6; [|apply Hproj].
    apply (keeps_optionally find_expressions) in H5;
      [|by intros b q q' [= <-]].
    apply (keeps_optionally find_expressions) in H4;
      [|by intros s; apply keeps_sort_val].
    apply (keeps_optionally find_expressions) in H3; [|apply Hnum].
    apply (keeps_optionally find_expressions) in H2; [|apply Hnum].
    simpl in H2. congruence.
  - intros b Hone. rewrite Hone in H5. simpl in H5.
    injection H5 as <-.
    pose proof H as Hs.
    apply (keeps_optionally limit_number) in H; [|by intros s q q' [= <-]].
    apply (keeps_optionally is_single) in Hs; [|by intros s q q' [= <-]].
    pose proof H6 as H6s.
    apply (keeps_optionally limit_number) in H6; [|apply Hproj].
    apply (keeps_optionally is_single) in H6s; [|apply Hproj].
    simpl in H6, H6s. split; congruence.
Qed.

Lemma limit_val_eq d n :
  0 ≤ n → copy_update_val d [Set_limit_number n] = inr (with_limit_number n d).
Proof.
  intros Hn. rewrite copy_update_val_one. simpl. unfold validate_conint_ge0.
  by rewrite (proj2 (Z.leb_le 0 n) Hn).
Qed.

Lemma skip_val_eq d n :
  0 ≤ n → copy_update_val d [Set_skip_number n] = inr (with_skip_number n d).
Proof.
  intros Hn. rewrite copy_update_val_one. simpl. unfold validate_conint_ge0.
  by rewrite (proj2 (Z.leb_le 0 n) Hn).
Qed.

Lemma outcome_limit_then_one σ self d n b :
  σ !! self = Some d → 0 ≤ n →
  outcome ((r ← limit self n; one r b) σ)
  = inr (with_limit_number 1 (with_is_single b d)).
Proof.
  intros Hself Hn.
  rewrite (outcome_runs_as true _ _ _ _ d
             (runs_as_bind true true _ _ _ _
                (runs_as_limit n) (runs_as_one b)) Hself).
  by rewrite limit_val_eq.
Qed.

(** C2. [one(b)] returns a query with [is_single = b] and
    [limit_number = 1], the other fields being those of [self]; in the
    parameters of the execution the limit is [1] when [is_single] holds
    and [limit_number] otherwise; so after [limit(n)] then [one(b)] the
    limit passed to the collection is [1]. *)
Theorem one_sets_single_and_limit σ self d (b : bool) :
  σ !! self = Some d →
  outcome (one self b σ) = inr (with_limit_number 1 (with_is_single b d))
  ∧ (∀ q, p_limit (_find_query_params get_projection q)
          = if is_single q then 1 else limit_number q)
  ∧ p_limit (_find_query_params get_projection
               (with_limit_number 1 (with_is_single b d))) = 1
  ∧ (∀ n, 0 ≤ n →
       ∃ q', outcome ((r ← limit self n; one r b) σ) = inr q'
             ∧ is_single q' = b ∧ limit_number q' = 1
             ∧ p_limit (_find_query_params get_projection q') = 1).
Proof.
  intros Hself. split_and!.
  - by rewrite (outcome_runs_as true _ _ _ _ d (runs_as_one b) Hself).
  - intros q. simpl. by destruct (is_single q).
  - simpl. by destruct b.
  - intros n Hn. eexists. split; first by apply outcome_limit_then_one.
    simpl. by destruct b.
Qed.

(** C10. [one(False)] sets [limit_number] to [1] as [one(True)] does, and
    so does [find(..., one = False)], whatever limit was set before or is
    passed along: single mode is not switched off without the limit
    becoming [1]. *)
Theorem one_false_resets_limit σ self d :
  σ !! self = Some d →
  outcome (one self false σ) = inr (with_limit_number 1 (with_is_single false d))
  ∧ outcome (one self true σ) = inr (with_limit_number 1 (with_is_single true d))
  ∧ (∀ n, 0 ≤ n →
       outcome ((r ← limit self n; one r false) σ)
       = inr (with_limit_number 1 (with_is_single false d)))
  ∧ (∀ (args : list Expr) kw d',
       kw_one kw = Some false →
       outcome (find self args kw σ) = inr d' →
       is_single d' = false ∧ limit_number d' = 1)
  ∧ (∀ (args : list Expr) n, 0 ≤ n →
       outcome (find self args
                  (mkFindKwargs None (Some n) None (Some false) None None) σ)
       = inr (with_limit_number 1
                (with_is_single false
                   (with_find_expressions (find_expressions d ++ args) d)))).
Proof.
  intros Hself. split_and!.
  - by rewrite (outcome_runs_as true _ _ _ _ d (runs_as_one false) Hself).
  - by rewrite (outcome_runs_as true _ _ _ _ d (runs_as_one true) Hself).
  - intros n Hn. by apply outcome_limit_then_one.
  - intros args kw d' Hone.
    rewrite (outcome_runs_as true _ _ _ _ d (runs_as_find args kw) Hself).
    intros Hfind. apply find_val_inv in Hfind as [_ Hfields].
    by destruct (Hfields false Hone).
  - intros args n Hn.
    rewrite (outcome_runs_as true _ _ _ _ d (runs_as_find args _) Hself).
    unfold find_val. rewrite copy_update_val_one. simpl.
    by rewrite limit_val_eq.
Qed.

(** C4. [find] puts its expressions after those [self] has, whatever
    keyword arguments come with them ([find_many] is [find]);
    [get_filter_query] is the empty mapping when the query has no
    expression and [And] of its expressions, in their order, otherwise;
    so [Q.find(P1).find(P2)] filters by [And] of the expressions of [Q]
    followed by [P1], [P2]. *)
Theorem find_appends_and_filters_by_and σ self d (args : list Expr) :
  σ !! self = Some d →
  outcome (find self args no_kwargs σ)
  = inr (with_find_expressions (find_expressions d ++ args) d)
  ∧ (∀ kw d', outcome (find self args kw σ) = inr d' →
              find_expressions d' = find_expressions d ++ args)
  ∧ (∀ kw, find_many self args kw σ = find self args kw σ)
  ∧ (∀ q, find_expressions q = [] → get_filter_query q = EmptyMapping)
  ∧ (∀ q, find_expressions q ≠ [] → get_filter_query q = And (find_expressions q))
  ∧ (∀ P1 P2 : Expr,
       ∃ d2, outcome ((r ← find self [P1] no_kwargs; find r [P2] no_kwargs) σ)
             = inr d2
             ∧ find_expressions d2 = find_expressions d ++ [P1; P2]
             ∧ get_filter_query d2 = And (find_expressions d ++ [P1; P2])).
Proof.
  intros Hself. split_and!.
  - by rewrite (outcome_runs_as true _ _ _ _ d (runs_as_find args _) Hself).
  - intros kw d'.
    rewrite (outcome_runs_as true _ _ _ _ d (runs_as_find args kw) Hself).
    intros Hfind. by apply find_val_inv in Hfind as [? _].
  - reflexivity.
  - intros q Hq. unfold get_filter_query. by rewrite Hq.
  - intros q Hq. unfold get_filter_query. by destruct (find_expressions q).
  - intros P1 P2. eexists.
    rewrite (outcome_runs_as true _ _ _ _ d
               (runs_as_bind true true _ _ _ _
                  (runs_as_find [P1] no_kwargs) (runs_as_find [P2] no_kwargs))
               Hself).
    split; first reflexivity. simpl.
    rewrite <- app_assoc. simpl. split; first done.
    unfold get_filter_query. simpl.
    by destruct (find_expressions d).
Qed.


(** C6. Awaiting a query in single mode issues exactly one [find_one]
    call, with the assembled parameters: as filter the empty mapping or
    [And] of the expressions of the query, the projection of its
    [projection_model], its session, the limit [1], its [skip_number]
    and its sort keys.  When the collection finds no record the result
    is [None] and nothing is raised; when it finds one the result is the
    record parsed by [projection_model] (or the error of that parsing). *)
Theorem await_single_finds_one c q :
  is_single q = true →
  _find_query_params get_projection q
  = mkParams (match find_expressions q with
              | [] => EmptyMapping
              | _ :: _ => And (find_expressions q)
              end)
             (get_projection (projection_model q)) (session q) 1
             (skip_number q) (sort_expressions q)
  ∧ (run c (__await__ get_projection parse_obj q)).1
    = [Called_find_one
         (mkParams (match find_expressions q with
                    | [] => EmptyMapping
                    | _ :: _ => And (find_expressions q)
                    end)
                   (get_projection (projection_model q)) (session q) 1
                   (skip_number q) (sort_expressions q))]
  ∧ (coll_find_one c
       (mkParams (match find_expressions q with
                  | [] => EmptyMapping
                  | _ :: _ => And (find_expressions q)
                  end)
                 (get_projection (projection_model q)) (session q) 1
                 (skip_number q) (sort_expressions q)) = inr None →
       (run c (__await__ get_projection parse_obj q)).2 = inr ResNone)
  ∧ (∀ raw,
       coll_find_one c
         (mkParams (match find_expressions q with
                    | [] => EmptyMapping
                    | _ :: _ => And (find_expressions q)
                    end)
                   (get_projection (projection_model q)) (session q) 1
                   (skip_number q) (sort_expressions q)) = inr (Some raw) →
       (run c (__await__ get_projection parse_obj q)).2
       = match parse_obj (projection_model q) raw with
         | inr parsed => inr (ResDocument parsed)
         | inl e => inl e
         end).
Proof.
  intros Hsingle.
  assert (_find_query_params get_projection q
          = mkParams (match find_expressions q with
                      | [] => EmptyMapping
                      | _ :: _ => And (find_expressions q)
                      end)
                     (get_projection (projection_model q)) (session q) 1
                     (skip_number q) (sort_expressions q)) as Hparams.
  { unfold _find_query_params, get_filter_query. by rewrite Hsingle. }
  unfold __await__. rewrite Hsingle, Hparams. simpl.
  split_and!.
  - done.
  - destruct (coll_find_one c _) as [e|[raw|]]; simpl; try done.
    by destruct (parse_obj _ raw).
  - by intros ->.
  - intros raw ->. by destruct (parse_obj _ raw).
Qed.

End ExecutorProperties.

Lemma one_sets_single_and_limit_witness :
  example_store !! 1%positive = Some example_query
  ∧ outcome (one 1%positive true example_store)
    = inr (with_limit_number 1 (with_is_single true example_query))
  ∧ p_limit (_find_query_params (λ m : string, m)
               (with_limit_number 1 (with_is_single true example_query))) = 1.
Proof.
  split; [reflexivity|].
  destruct (one_sets_single_and_limit (λ m : string, m)
              example_store 1%positive example_query true eq_refl)
    as (Hone & _ & Hlimit & _).
  split; [exact Hone | exact Hlimit].
Defined.

Lemma one_false_resets_limit_witness :
  example_store !! 1%positive = Some example_query
  ∧ outcome (find 1%positive ["q"]
               (mkFindKwargs None (Some 50) None (Some false) None None)
               example_store)
    = inr (with_limit_number 1
             (with_is_single false
                (with_find_expressions ["p"; "q"] example_query))).
Proof.
  split; [reflexivity|].
  destruct (one_false_resets_limit example_store 1%positive example_query eq_refl)
    as (_ & _ & _ & _ & Hfind).
  apply (Hfind ["q"] 50). lia.
Defined.

Lemma find_appends_and_filters_by_and_witness :
  example_store !! 1%positive = Some example_query
  ∧ outcome (find 1%positive ["q"] no_kwargs example_store)
    = inr (with_find_expressions ["p"; "q"] example_query).
Proof.
  split; [reflexivity|].
  apply (find_appends_and_filters_by_and example_store 1%positive
           example_query ["q"]).
  reflexivity.
Defined.


Lemma await_single_finds_one_witness :
  is_single (with_skip_number 3 (with_limit_number 1
               (with_is_single true example_query))) = true
  ∧ (run example_collection
       (__await__ (λ m : string, m) (λ (_ : string) (raw : nat), inr raw)
          (with_skip_number 3 (with_limit_number 1
             (with_is_single true example_query))))).1
    = [Called_find_one
         (mkParams (And ["p"]) "Doc" None 1 3 [("age", DESCENDING)])]
  ∧ (run example_collection
       (__await__ (λ m : string, m) (λ (_ : string) (raw : nat), inr raw)
          (with_skip_number 3 (with_limit_number 1
             (with_is_single true example_query))))).2
    = inr ResNone.
Proof.
  split; [reflexivity|].
  destruct (await_single_finds_one (λ m : string, m)
              (λ (_ : string) (raw : nat), inr raw : Exn + nat)
              example_collection
              (with_skip_number 3 (with_limit_number 1
                 (with_is_single true example_query)))
              eq_refl)
    as (_ & Hcalls & Hnone & _).
  split; [exact Hcalls | apply Hnone; reflexivity].
Defined.

(** ** Further properties of the setters *)

Section SetterProperties.
Context {Model Expr Session Cursor : Type}.
Context {Projection : Type}.
Variable get_projection : Model → Projection.
#[local] Abbreviation FindQuery := (@FindQuery Model Expr Session Cursor).
#[local] Abbreviation FindKwargs := (@FindKwargs Model Session).
#[local] Abbreviation M := (@M Model Expr Session Cursor).
#[local] Abbreviation Assign := (@Assign Model Expr).
Implicit Types (σ : gmap loc FindQuery) (d q : FindQuery) (self res : loc).
Implicit Types (kw : FindKwargs) (n : Z).

Lemma outcome_bind s1 s2 (f g : loc → M loc) fv gv σ self d :
  runs_as s1 f fv → runs_as s2 g gv → σ !! self = Some d →
  outcome ((r ← f self; g r) σ) = bind_exn (fv d) gv.
Proof.
  intros Hf Hg Hself.
  exact (outcome_runs_as _ _ _ σ self d (runs_as_bind s1 s2 f fv g gv Hf Hg) Hself).
Qed.

Lemma negative_rejected (name : string) n :
  n < 0 →
  validate_conint_ge0 name n = inl [([LField name], NumberNotGeError 0)].
Proof.
  intros Hn. unfold validate_conint_ge0.
  by rewrite (proj2 (Z.leb_gt 0 n) Hn).
Qed.

Lemma limit_val_negative d n :
  n < 0 →
  copy_update_val d [Set_limit_number n]
  = inl (ValidationError [([LField "limit_number"], NumberNotGeError 0)]).
Proof.
  intros Hn. rewrite copy_update_val_one. simpl.
  by rewrite negative_rejected.
Qed.

Lemma skip_val_negative d n :
  n < 0 →
  copy_update_val d [Set_skip_number n]
  = inl (ValidationError [([LField "skip_number"], NumberNotGeError 0)]).
Proof.
  intros Hn. rewrite copy_update_val_one. simpl.
  by rewrite negative_rejected.
Qed.

(** X1. [limit(n)] and [skip(n)] accept exactly the non-negative
    numbers: for [0 ≤ n] they return a query with that limit (skip) and
    the other fields of [self]; for [n < 0] they raise the
    [ValidationError] of [conint(ge = 0)] on the field. *)
Theorem limit_and_skip_bounds σ self d n :
  σ !! self = Some d →
  (0 ≤ n → outcome (limit self n σ) = inr (with_limit_number n d)
           ∧ outcome (skip self n σ) = inr (with_skip_number n d))
  ∧ (n < 0 →
       outcome (limit self n σ)
       = inl (ValidationError [([LField "limit_number"], NumberNotGeError 0)])
       ∧ outcome (skip self n σ)
         = inl (ValidationError [([LField "skip_number"], NumberNotGeError 0)])).
Proof.
  intros Hself.
  rewrite (outcome_runs_as true _ _ _ _ d (runs_as_limit n) Hself).
  rewrite (outcome_runs_as true _ _ _ _ d (runs_as_skip n) Hself).
  split; intros Hn.
  - by rewrite limit_val_eq, skip_val_eq.
  - by rewrite limit_val_negative, skip_val_negative.
Qed.

(** X2. [project] never fails: with a model class it sets
    [projection_model] to it, with [None] it sets it back to
    [document_model] (the validator [default_projection_model]); the
    other fields are those of [self]. *)
Theorem project_defaults_to_document_model σ self d (m : option Model) :
  σ !! self = Some d →
  outcome (project self m σ)
  = inr (with_projection_model (default (document_model d) m) d).
Proof.
  intros Hself.
  rewrite (outcome_runs_as true (λ self, project self m) _ _ _ d
             (runs_as_copy_update [Set_projection_model m]) Hself).
  rewrite copy_update_val_one. simpl. by destruct m.
Qed.

(** X3. [one(b)] followed by [limit(n)]: the later call decides
    [limit_number], [is_single] stays as [one] set it, and the limit
    passed to the collection is still [1] in single mode. *)
Theorem limit_after_one σ self d (b : bool) n :
  σ !! self = Some d → 0 ≤ n →
  outcome ((r ← one self b; limit r n) σ)
  = inr (with_limit_number n (with_is_single b d))
  ∧ p_limit (_find_query_params get_projection
               (with_limit_number n (with_is_single b d)))
    = if b then 1 else n.
Proof.
  intros Hself Hn. split.
  - rewrite (outcome_bind true true _ _ _ _ σ self d
               (runs_as_one b) (runs_as_limit n) Hself).
    rewrite one_val_eq. simpl. by rewrite limit_val_eq.
  - simpl. by destruct b.
Qed.

(** X4. [skip] and [limit] with valid numbers commute, and of two calls
    of the same setter the later one wins. *)
Theorem skip_and_limit_commute σ self d (a b : Z) :
  σ !! self = Some d → 0 ≤ a → 0 ≤ b →
  outcome ((r ← skip self a; limit r b) σ)
  = outcome ((r ← limit self b; skip r a) σ)
  ∧ outcome ((r ← limit self a; limit r b) σ) = outcome (limit self b σ)
  ∧ outcome ((r ← skip self a; skip r b) σ) = outcome (skip self b σ).
Proof.
  intros Hself Ha Hb.
  rewrite (outcome_bind true true _ _ _ _ σ self d
             (runs_as_skip a) (runs_as_limit b) Hself).
  rewrite (outcome_bind true true _ _ _ _ σ self d
             (runs_as_limit b) (runs_as_skip a) Hself).
  rewrite (outcome_bind true true _ _ _ _ σ self d
             (runs_as_limit a) (runs_as_limit b) Hself).
  rewrite (outcome_bind true true _ _ _ _ σ self d
             (runs_as_skip a) (runs_as_skip b) Hself).
  rewrite (outcome_runs_as true _ _ _ _ d (runs_as_limit b) Hself).
  rewrite (outcome_runs_as true _ _ _ _ d (runs_as_skip b) Hself).
  rewrite !limit_val_eq, !skip_val_eq by done. simpl.
  by rewrite !limit_val_eq, !skip_val_eq by done.
Qed.

End SetterProperties.

(** ** Further properties of [sort] *)

Section SortProperties.
Context {Model Expr Session Cursor : Type}.
#[local] Abbreviation FindQuery := (@FindQuery Model Expr Session Cursor).
#[local] Abbreviation FindKwargs := (@FindKwargs Model Session).
#[local] Abbreviation M := (@M Model Expr Session Cursor).
#[local] Abbreviation Assign := (@Assign Model Expr).
Implicit Types (σ : gmap loc FindQuery) (d q : FindQuery) (self res : loc).
Implicit Types (kw : FindKwargs) (n : Z) (args items : list PyVal).

Lemma with_sort_expressions_id d :
  with_sort_expressions (sort_expressions d) d = d.
Proof. by destruct d. Qed.

Lemma sort_items_none_or_spec args :
  args ≠ [] → Forall (λ v, none_or_spec v = true) args →
  sort_items args = Some args.
Proof.
  intros Hne Hargs. destruct Hargs as [|v args Hv Hargs]; first done.
  destruct Hargs as [|v' args Hv' Hargs]; simpl; last done.
  by destruct v as [ |z|s|dir|items|items].
Qed.

Lemma sort_keys_all_none args :
  Forall (λ v, is_None v = true) args → sort_keys args = [].
Proof.
  unfold sort_keys. induction 1 as [|v args Hv _ IH]; simpl; first done.
  destruct v; try discriminate. exact IH.
Qed.

Lemma sort_val_none_or_spec d args :
  args ≠ [] → Forall (λ v, none_or_spec v = true) args →
  sort_val d args
  = inr (with_sort_expressions (sort_keys args ++ sort_expressions d) d).
Proof.
  intros Hne Hargs. unfold sort_val.
  rewrite sort_items_none_or_spec by done.
  by apply sort_assign_val_specs.
Qed.

Lemma validate_sequence_like_error {A : Type}
    (f : list LocItem → PyVal → list ErrorWrapper + A) place i items
    (x : PyVal) (e : Cause) :
  In x items → (∀ p, f p x = inl [(p, e)]) →
  ∃ j, In (place ++ [LIndex j], e) (validate_sequence_like f place i items).1.
Proof.
  intros Hx Hf. revert i. induction items as [|y items IH]; intros i.
  - destruct Hx.
  - simpl.
    destruct (validate_sequence_like f place (S i) items)
      as [errors result] eqn:Hrest.
    destruct Hx as [->|Hx].
    + rewrite Hf. exists i. simpl. by left.
    + destruct (IH Hx (S i)) as [j Hj]. rewrite Hrest in Hj. simpl in Hj.
      exists j. destruct (f (place ++ [LIndex i]) y) as [ee|r]; simpl.
      * apply in_or_app. by right.
      * done.
Qed.

(** X5. An empty list as the only argument of [sort] ends, through the
    recursion on [*args[0]], in the [ValueError] of the call without
    arguments, also when the list is wrapped in further one-element
    lists; so [find(..., sort = [])] raises it, once the numbers passed
    as [skip] and [limit] are accepted. *)
Theorem sort_of_empty_list_raises σ self d (args : list Expr) kw :
  σ !! self = Some d →
  kw_sort kw = Some (VList []) →
  (∀ n, kw_skip kw = Some n → 0 ≤ n) →
  (∀ n, kw_limit kw = Some n → 0 ≤ n) →
  sort self [VList []] σ
  = (σ, inl (ValueError "'sort()' requires arguments."))
  ∧ sort self [VList [VList []]] σ
    = (σ, inl (ValueError "'sort()' requires arguments."))
  ∧ outcome (find self args kw σ)
    = inl (ValueError "'sort()' requires arguments.").
Proof.
  intros Hself Hsort Hskip Hlimit. split_and!; [reflexivity..|].
  rewrite (outcome_runs_as true _ _ _ _ d (runs_as_find args kw) Hself).
  unfold find_val. rewrite copy_update_val_one. simpl.
  destruct (kw_skip kw) as [n|]; simpl;
    [rewrite skip_val_eq by (by apply Hskip); simpl|];
    (destruct (kw_limit kw) as [n'|]; simpl;
       [rewrite limit_val_eq by (by apply Hlimit); simpl|]);
    by rewrite Hsort.
Qed.

(** X6. [None] among the arguments of [sort] is dropped: for a non-empty
    argument list of [None], strings and pairs the keys of the strings
    and pairs go in front of the stored keys; with [None] only, the
    query returned has the fields of [self]. *)
Theorem sort_ignores_none σ self d args :
  σ !! self = Some d →
  args ≠ [] →
  Forall (λ v, none_or_spec v = true) args →
  outcome (sort self args σ)
  = inr (with_sort_expressions (sort_keys args ++ sort_expressions d) d)
  ∧ (Forall (λ v, is_None v = true) args → outcome (sort self args σ) = inr d).
Proof.
  intros Hself Hne Hargs.
  rewrite (outcome_runs_as true _ _ _ _ d (runs_as_sort args) Hself).
  rewrite sort_val_none_or_spec by done. split; first done.
  intros Hnone. rewrite sort_keys_all_none by done. simpl.
  by rewrite with_sort_expressions_id.
Qed.

(** X7. An argument of [sort] that is neither [None], a tuple nor a
    string (a number, or a list passed along with other arguments)
    makes the call raise a [ValidationError] that reports the
    [TypeError] "Wrong sort type" at the place of the item. *)
Theorem sort_rejects_other_types σ self d args (bad : PyVal) :
  σ !! self = Some d →
  In bad args →
  is_None bad = false → is_tuple bad = false → is_str bad = false →
  (∀ items, args ≠ [VList items]) →
  ∃ errors i,
    outcome (sort self args σ) = inl (ValidationError errors)
    ∧ In ([LField "sort_expressions"; LIndex i], TypeError "Wrong sort type")
         errors.
Proof.
  intros Hself Hbad Hnone Htuple Hstr Hlist.
  rewrite (outcome_runs_as true _ _ _ _ d (runs_as_sort args) Hself).
  assert (sort_items args = Some args) as Hitems.
  { destruct args as [|v [|v' args]]; [destruct Hbad| |done].
    destruct v as [ |z|s|dir|items|items]; try done.
    by destruct (Hlist items). }
  unfold sort_val, sort_assign_val. rewrite Hitems, copy_update_val_one.
  simpl. unfold validate_sort_expressions, validate_sort_expressions_with.
  destruct (validate_sequence_like_error
              (validate_sort_item_with validate_sort_items)
              [LField "sort_expressions"] 0
              (validate_sort_no_none
                 (args ++ map sort_key_value (sort_expressions d)))
              bad (TypeError "Wrong sort type")) as [i Hi].
  - unfold validate_sort_no_none. apply filter_In. split.
    + apply in_or_app. by left.
    + by rewrite Hnone.
  - intros p. unfold validate_sort_item_with.
    by destruct bad.
  - destruct (validate_sequence_like _ _ _ _) as [[|e errors] result];
      first destruct Hi.
    by exists (e :: errors), i.
Qed.

(** X8. Validation is stable on what it produced: the keys a query
    holds, assigned again to [sort_expressions], are accepted and give
    the same query; and [validate_sort_items] returns its own results
    unchanged. *)
Theorem stored_keys_revalidate σ self d (v v' : PyVal) :
  σ !! self = Some d →
  validate_sort_items v = inr v' →
  validate_sort_expressions (map sort_key_value (sort_expressions d))
  = inr (sort_expressions d)
  ∧ outcome (_copy_update self
               [Set_sort_expressions (map sort_key_value (sort_expressions d))] σ)
    = inr d
  ∧ validate_sort_items v' = inr v'.
Proof.
  intros Hself Hv.
  pose proof (validate_sort_expressions_prepend [] (sort_expressions d)
                (Forall_nil_2 _)) as Hval.
  simpl in Hval. split_and!.
  - done.
  - rewrite (outcome_runs_as true (λ self, _copy_update self _) _ _ _ d
               (runs_as_copy_update _) Hself).
    rewrite copy_update_val_one. simpl. rewrite Hval.
    by rewrite with_sort_expressions_id.
  - unfold validate_sort_items in Hv.
    destruct v as [ |z|s|dir|items|items]; simpl in Hv; try discriminate.
    + by injection Hv as <-.
    + by repeat case_match; injection Hv as <-.
    + by injection Hv as <-.
Qed.

(** X9. Two calls of [sort] compose: [sort( *xs)] followed by [sort( *ys)]
    gives the query of [sort( *ys, *xs)], for non-empty lists of strings
    and pairs. *)
Theorem sort_composes σ self d (xs ys : list PyVal) :
  σ !! self = Some d →
  xs ≠ [] → ys ≠ [] →
  Forall (λ v, is_sort_spec v = true) xs →
  Forall (λ v, is_sort_spec v = true) ys →
  outcome ((r ← sort self xs; sort r ys) σ) = outcome (sort self (ys ++ xs) σ)
  ∧ outcome (sort self (ys ++ xs) σ)
    = inr (with_sort_expressions
             (sort_keys ys ++ sort_keys xs ++ sort_expressions d) d).
Proof.
  intros Hself Hxs Hys Hfx Hfy.
  rewrite (outcome_bind true true _ _ _ _ σ self d
             (runs_as_sort xs) (runs_as_sort ys) Hself).
  rewrite (outcome_runs_as true _ _ _ _ d (runs_as_sort (ys ++ xs)) Hself).
  destruct (sort_val_specs d xs Hxs Hfx) as [-> _]. simpl.
  destruct (sort_val_specs
              (with_sort_expressions (sort_keys xs ++ sort_expressions d) d)
              ys Hys Hfy) as [-> _].
  destruct (sort_val_specs d (ys ++ xs)) as [-> _].
  { by destruct ys. }
  { by apply Forall_app. }
  simpl. by rewrite sort_keys_app, <- app_assoc.
Qed.

End SortProperties.

(** ** Further properties of [find] and [find_one] *)

Section FindProperties.
Context {Model Expr Session Cursor : Type}.
#[local] Abbreviation FindQuery := (@FindQuery Model Expr Session Cursor).
#[local] Abbreviation FindKwargs := (@FindKwargs Model Session).
#[local] Abbreviation M := (@M Model Expr Session Cursor).
#[local] Abbreviation Assign := (@Assign Model Expr).
Implicit Types (σ : gmap loc FindQuery) (d q : FindQuery) (self res : loc).
Implicit Types (kw : FindKwargs) (n : Z) (args : list Expr).

Lemma sort_val_one_spec d (s : PyVal) :
  is_sort_spec s = true →
  sort_val d [s]
  = inr (with_sort_expressions (sort_keys [s] ++ sort_expressions d) d).
Proof.
  intros Hs. destruct (sort_val_specs d [s]) as [-> _]; [done| |done].
  by repeat constructor.
Qed.

Lemma with_find_expressions_id d :
  with_find_expressions (find_expressions d) d = d.
Proof. by destruct d. Qed.

(** X10. [find] with accepted keyword arguments applies all of them to
    one new query: the expressions are appended, [skip], [limit],
    [projection_model] and [session] replace the fields when given and
    leave them otherwise (a session cannot be removed this way), the
    sort argument goes in front of the stored keys, and [one], applied
    after [limit], sets [is_single] and makes [limit_number] [1]. *)
Theorem find_applies_all_kwargs σ self d args kw :
  σ !! self = Some d →
  (∀ n, kw_skip kw = Some n → 0 ≤ n) →
  (∀ n, kw_limit kw = Some n → 0 ≤ n) →
  (∀ s, kw_sort kw = Some s → is_sort_spec s = true) →
  ∃ d', outcome (find self args kw σ) = inr d'
    ∧ document_model d' = document_model d
    ∧ cursor d' = cursor d
    ∧ find_expressions d' = find_expressions d ++ args
    ∧ skip_number d' = default (skip_number d) (kw_skip kw)
    ∧ limit_number d'
      = match kw_one kw with
        | Some _ => 1
        | None => default (limit_number d) (kw_limit kw)
        end
    ∧ sort_expressions d'
      = sort_keys (option_list (kw_sort kw)) ++ sort_expressions d
    ∧ is_single d' = default (is_single d) (kw_one kw)
    ∧ projection_model d'
      = default (projection_model d) (kw_projection_model kw)
    ∧ session d' = from_option Some (session d) (kw_session kw).
Proof.
  intros Hself Hskip Hlimit Hsort.
  rewrite (outcome_runs_as true _ _ _ _ d (runs_as_find args kw) Hself).
  unfold find_val. rewrite copy_update_val_one. simpl.
  destruct kw as [ks kl kso ko kp kse]. simpl in *.
  destruct ks as [n1|]; simpl;
    [rewrite skip_val_eq by (by apply Hskip); simpl|];
    (destruct kl as [n2|]; simpl;
       [rewrite limit_val_eq by (by apply Hlimit); simpl|]);
    (destruct kso as [s|]; simpl;
       [rewrite sort_val_one_spec by (by apply Hsort); simpl|]);
    destruct ko as [b|], kp as [m|], kse as [se|]; simpl;
    eexists; (split; [reflexivity|]); simpl; by split_and!.
Qed.

(** X11. [find_one] is [find] followed by [one()]: it fails exactly as
    [find] does, and the query it returns is in single mode with
    [limit_number = 1], even when [one = False] or a limit was passed. *)
Theorem find_one_is_always_single σ self d args kw :
  σ !! self = Some d →
  outcome (find_one self args kw σ)
  = bind_exn (outcome (find self args kw σ))
      (λ d', inr (with_limit_number 1 (with_is_single true d')))
  ∧ ∀ d', outcome (find_one self args kw σ) = inr d' →
          is_single d' = true ∧ limit_number d' = 1
          ∧ find_expressions d' = find_expressions d ++ args.
Proof.
  intros Hself.
  rewrite (outcome_runs_as true _ _ _ _ d (runs_as_find_one args kw) Hself).
  rewrite (outcome_runs_as true _ _ _ _ d (runs_as_find args kw) Hself).
  unfold find_one_val. split; first done.
  intros d'. destruct (find_val d args kw) as [e|d1] eqn:Hfind; first done.
  simpl. rewrite one_val_eq. intros [= <-]. simpl.
  by apply find_val_inv in Hfind as [-> _].
Qed.

(** X12. A negative [skip] makes [find] raise the [ValidationError] of
    [skip_number], whatever the other arguments; with the skip accepted
    or absent, a negative [limit] makes it raise that of [limit_number]. *)
Theorem find_rejects_negative_bounds σ self d args kw n :
  σ !! self = Some d →
  n < 0 →
  (kw_skip kw = Some n →
     outcome (find self args kw σ)
     = inl (ValidationError [([LField "skip_number"], NumberNotGeError 0)]))
  ∧ ((∀ m, kw_skip kw = Some m → 0 ≤ m) → kw_limit kw = Some n →
       outcome (find self args kw σ)
       = inl (ValidationError [([LField "limit_number"], NumberNotGeError 0)])).
Proof.
  intros Hself Hn.
  rewrite (outcome_runs_as true _ _ _ _ d (runs_as_find args kw) Hself).
  unfold find_val. rewrite copy_update_val_one. simpl. split.
  - intros ->. simpl. by rewrite skip_val_negative.
  - intros Hskip ->.
    destruct (kw_skip kw) as [m|]; simpl;
      [rewrite skip_val_eq by (by apply Hskip); simpl|];
      by rewrite limit_val_negative.
Qed.

(** X13. Calls of [find] without keyword arguments accumulate:
    [find( *ps)] followed by [find( *qs)] gives the query of
    [find( *ps, *qs)], and [find()] gives a query with the fields of
    [self]. *)
Theorem find_accumulates σ self d (ps qs : list Expr) :
  σ !! self = Some d →
  outcome ((r ← find self ps no_kwargs; find r qs no_kwargs) σ)
  = outcome (find self (ps ++ qs) no_kwargs σ)
  ∧ outcome (find self (ps ++ qs) no_kwargs σ)
    = inr (with_find_expressions (find_expressions d ++ ps ++ qs) d)
  ∧ outcome (find self [] no_kwargs σ) = inr d.
Proof.
  intros Hself.
  rewrite (outcome_bind true true _ _ _ _ σ self d
             (runs_as_find ps no_kwargs) (runs_as_find qs no_kwargs) Hself).
  rewrite !(outcome_runs_as true _ _ _ _ d (runs_as_find _ no_kwargs) Hself).
  unfold find_val. rewrite !copy_update_val_one. simpl.
  rewrite ?copy_update_val_one. simpl.
  rewrite <- app_assoc, app_nil_r.
  by rewrite with_find_expressions_id.
Qed.

End FindProperties.

(** ** What every transform respects *)

Section Respect.
Context {Model Expr Session Cursor : Type}.
#[local] Abbreviation FindQuery := (@FindQuery Model Expr Session Cursor).
#[local] Abbreviation FindKwargs := (@FindKwargs Model Session).
#[local] Abbreviation Assign := (@Assign Model Expr).
#[local] Abbreviation Transform := (@Transform Model Expr Session).
Implicit Types (d q : FindQuery) (kw : FindKwargs) (args : list Expr).

(** A relation between the fields before and after a step, which holds
    for the assignments of the scalar fields, for the two sums the
    source assigns to the list fields, and for the copy of
    [set_session]. *)
Variable R : FindQuery → FindQuery → Prop.
Hypothesis R_refl : ∀ d, R d d.
Hypothesis R_trans : ∀ d1 d2 d3, R d1 d2 → R d2 d3 → R d1 d3.
Hypothesis R_assign : ∀ d (kv : Assign) d',
  validate_assignment d kv = inr d' →
  match kv with
  | Set_find_expressions _ | Set_sort_expressions _ => True
  | _ => R d d'
  end.
Hypothesis R_find : ∀ d args,
  R d (with_find_expressions (find_expressions d ++ args) d).
Hypothesis R_sort : ∀ d (items : list PyVal) d',
  sort_assign_val d items = inr d' → R d d'.
Hypothesis R_session : ∀ d (s : option Session), R d (with_session s d).

Lemma respects_optionally {A : Type} (o : option A) fv d d' :
  (∀ a q q', fv q a = inr q' → R q q') →
  optionally o fv d = inr d' → R d d'.
Proof.
  intros Hfv. destruct o as [a|]; simpl.
  - apply Hfv.
  - by intros [= ->].
Qed.

Lemma respects_one d (b : bool) d' : one_val d b = inr d' → R d d'.
Proof.
  rewrite one_val_eq. intros [= <-].
  apply (R_trans _ (with_is_single b d)).
  - by apply (R_assign d (Set_is_single b)).
  - by apply (R_assign (with_is_single b d) (Set_limit_number 1)).
Qed.

Lemma respects_sort d (sort_args : list PyVal) d' :
  sort_val d sort_args = inr d' → R d d'.
Proof.
  unfold sort_val. destruct (sort_items sort_args) as [items|]; last done.
  apply R_sort.
Qed.

Lemma respects_find d args kw d' : find_val d args kw = inr d' → R d d'.
Proof.
  unfold find_val. rewrite copy_update_val_one. simpl. intros H.
  destruct (optionally (kw_skip kw) _ _) as [?|d2] eqn:H2;
    [discriminate|]; simpl in H.
  destruct (optionally (kw_limit kw) _ _) as [?|d3] eqn:H3;
    [discriminate|]; simpl in H.
  destruct (optionally (kw_sort kw) _ _) as [?|d4] eqn:H4;
    [discriminate|]; simpl in H.
  destruct (optionally (kw_one kw) _ _) as [?|d5] eqn:H5;
    [discriminate|]; simpl in H.
  destruct (optionally (kw_projection_model kw) _ _) as [?|d6] eqn:H6;
    [discriminate|]; simpl in H.
  apply respects_optionally in H2;
    [|intros n q q'; rewrite copy_update_val_one;
      apply (R_assign q (Set_skip_number n))].
  apply respects_optionally in H3;
    [|intros n q q'; rewrite copy_update_val_one;
      apply (R_assign q (Set_limit_number n))].
  apply respects_optionally in H4; [|intros s q q'; apply respects_sort].
  apply respects_optionally in H5; [|intros b q q'; apply respects_one].
  apply respects_optionally in H6;
    [|intros m q q'; rewrite copy_update_val_one;
      apply (R_assign q (Set_projection_model (Some m)))].
  apply respects_optionally in H;
    [|by intros s q q' [= <-]].
  apply (R_trans _ _ _ (R_find d args)).
  apply (R_trans _ _ _ H2), (R_trans _ _ _ H3), (R_trans _ _ _ H4).
  exact (R_trans _ _ _ H5 (R_trans _ _ _ H6 H)).
Qed.

Lemma respects_transform (T : Transform) d d' :
  transform_val T d = inr d' → R d d'.
Proof.
  destruct T; simpl.
  - rewrite copy_update_val_one. apply (R_assign d (Set_limit_number _)).
  - rewrite copy_update_val_one. apply (R_assign d (Set_skip_number _)).
  - rewrite copy_update_val_one. apply (R_assign d (Set_projection_model _)).
  - apply respects_one.
  - apply respects_sort.
  - apply respects_find.
  - apply respects_find.
  - unfold find_one_val.
    destruct (find_val d args kw) as [e|d1] eqn:Hfind; first done.
    simpl. intros Hone. apply (R_trans _ d1).
    + by eapply respects_find.
    + by eapply respects_one.
  - intros [= <-]. apply R_session.
Qed.

End Respect.

(** ** Invariants of the builder *)

Section Invariants.
Context {Model Expr Session Cursor : Type}.
#[local] Abbreviation FindQuery := (@FindQuery Model Expr Session Cursor).
#[local] Abbreviation FindKwargs := (@FindKwargs Model Session).
#[local] Abbreviation M := (@M Model Expr Session Cursor).
#[local] Abbreviation Assign := (@Assign Model Expr).
#[local] Abbreviation Transform := (@Transform Model Expr Session).
Implicit Types (σ : gmap loc FindQuery) (d q : FindQuery) (self res : loc).
Implicit Types (items : list PyVal).

Lemma validate_sequence_like_app {A : Type}
    (f : list LocItem → PyVal → list ErrorWrapper + A) place i items items' :
  validate_sequence_like f place i (items ++ items')
  = ((validate_sequence_like f place i items).1
       ++ (validate_sequence_like f place (i + length items) items').1,
     (validate_sequence_like f place i items).2
       ++ (validate_sequence_like f place (i + length items) items').2).
Proof.
  revert i. induction items as [|x items IH]; intros i; simpl.
  - rewrite Nat.add_0_r. by destruct (validate_sequence_like f place i items').
  - rewrite IH. replace (i + S (length items))%nat with (S i + length items)%nat by lia.
    destruct (validate_sequence_like f place (S i) items) as [errors result].
    destruct (validate_sequence_like f place (S i + length items) items')
      as [errors' result'].
    simpl. destruct (f (place ++ [LIndex i]) x) as [ee|r]; simpl.
    + by rewrite app_assoc.
    + done.
Qed.

Lemma validate_stored_keys place i (ks : list (string * SortDirection)) :
  validate_sequence_like (validate_sort_item_with validate_sort_items)
    place i (validate_sort_no_none (map sort_key_value ks))
  = ([], ks).
Proof.
  apply validate_sequence_like_ok.
  pose proof (none_or_spec_Forall2 (map sort_key_value ks)
                (stored_keys_none_or_spec ks)) as H.
  rewrite sort_keys_stored in H.
  eapply Forall2_impl; first exact H. by intros x k [_ ?].
Qed.

(** The sum [sort] assigns is validated part by part: the new items
    alone decide the outcome, the stored keys come back as they are. *)
Lemma validate_sort_expressions_sum items (ks : list (string * SortDirection)) :
  validate_sort_expressions (items ++ map sort_key_value ks)
  = match validate_sort_expressions items with
    | inr new => inr (new ++ ks)
    | inl errors => inl errors
    end.
Proof.
  unfold validate_sort_expressions, validate_sort_expressions_with,
    validate_sort_no_none.
  rewrite List.filter_app, validate_sequence_like_app.
  fold (validate_sort_no_none (map sort_key_value ks)).
  rewrite validate_stored_keys. simpl.
  destruct (validate_sequence_like _ _ _ _) as [errors result]. simpl.
  rewrite app_nil_r. by destruct errors.
Qed.

Lemma sort_assign_val_sum d items :
  sort_assign_val d items
  = match validate_sort_expressions items with
    | inr new => inr (with_sort_expressions (new ++ sort_expressions d) d)
    | inl errors => inl (ValidationError errors)
    end.
Proof.
  unfold sort_assign_val. rewrite copy_update_val_one. simpl.
  rewrite validate_sort_expressions_sum.
  by destruct (validate_sort_expressions items).
Qed.

(** X14. Whatever the arguments of [sort] are, the keys [self] holds do
    not take part in the outcome: the call fails exactly when the
    validation of the arguments alone fails, with its errors, and
    otherwise puts the keys obtained from them in front of the stored
    ones. *)
Theorem sort_validates_arguments_alone σ self d (args : list PyVal) :
  σ !! self = Some d →
  args ≠ [] →
  (∀ items, args ≠ [VList items]) →
  outcome (sort self args σ)
  = match validate_sort_expressions args with
    | inr new => inr (with_sort_expressions (new ++ sort_expressions d) d)
    | inl errors => inl (ValidationError errors)
    end.
Proof.
  intros Hself Hne Hlist.
  rewrite (outcome_runs_as true _ _ _ _ d (runs_as_sort args) Hself).
  assert (sort_items args = Some args) as Hitems.
  { destruct args as [|v [|v' args]]; [done| |done].
    destruct v as [ |z|s|dir|items|items]; try done.
    by destruct (Hlist items). }
  unfold sort_val. rewrite Hitems. apply sort_assign_val_sum.
Qed.

(** X15. No transform of the builder takes anything away: in the query
    it returns, the expressions of [self] are a prefix of
    [find_expressions] and the keys of [self] a suffix of
    [sort_expressions]. *)
Theorem transforms_only_accumulate (T : Transform) σ self d d' :
  σ !! self = Some d →
  outcome (apply_transform T self σ) = inr d' →
  (∃ added, find_expressions d' = find_expressions d ++ added)
  ∧ (∃ added, sort_expressions d' = added ++ sort_expressions d).
Proof.
  intros Hself.
  rewrite (outcome_runs_as true _ _ _ _ d (runs_as_transform T) Hself).
  apply (respects_transform
           (λ q q', (∃ added, find_expressions q' = find_expressions q ++ added)
                    ∧ (∃ added, sort_expressions q' = added ++ sort_expressions q))).
  - intros q. split; exists []; [by rewrite app_nil_r|done].
  - intros q1 q2 q3 [[a1 Ha1] [b1 Hb1]] [[a2 Ha2] [b2 Hb2]]. split.
    + exists (a1 ++ a2). by rewrite Ha2, Ha1, app_assoc.
    + exists (b2 ++ b1). by rewrite Hb2, Hb1, app_assoc.
  - intros q kv q' Hkv.
    destruct kv; try done; simpl in Hkv;
      unfold validate_conint_ge0 in Hkv; repeat case_match; simplify_eq;
      (split; exists []; [by rewrite app_nil_r|done]).
  - intros q args. split; [by exists args|by exists []].
  - intros q items q'. rewrite sort_assign_val_sum.
    destruct (validate_sort_expressions items) as [errors|new]; first done.
    intros [= <-]. split; [exists []; by rewrite app_nil_r|by exists new].
  - intros q s. split; exists []; [by rewrite app_nil_r|done].
Qed.

(** X16. No transform of the builder changes [document_model] or
    [cursor] (the copy holds the cursor of [self]), and none makes
    [skip_number] or [limit_number] negative. *)
Theorem transforms_keep_model_and_bounds (T : Transform) σ self d d' :
  σ !! self = Some d →
  outcome (apply_transform T self σ) = inr d' →
  document_model d' = document_model d
  ∧ cursor d' = cursor d
  ∧ (0 ≤ skip_number d → 0 ≤ skip_number d')
  ∧ (0 ≤ limit_number d → 0 ≤ limit_number d').
Proof.
  intros Hself.
  rewrite (outcome_runs_as true _ _ _ _ d (runs_as_transform T) Hself).
  apply (respects_transform
           (λ q q', document_model q' = document_model q
                    ∧ cursor q' = cursor q
                    ∧ (0 ≤ skip_number q → 0 ≤ skip_number q')
                    ∧ (0 ≤ limit_number q → 0 ≤ limit_number q'))).
  - done.
  - intros q1 q2 q3 (? & ? & ? & ?) (? & ? & ? & ?).
    split_and!; [congruence..|auto|auto].
  - intros q kv q' Hkv.
    destruct kv; try done; simpl in Hkv;
      unfold validate_conint_ge0 in Hkv; repeat case_match; simplify_eq;
      simpl; split_and!; try done; intros; lia.
  - done.
  - intros q items q'. rewrite sort_assign_val_sum.
    destruct (validate_sort_expressions items) as [errors|new]; first done.
    by intros [= <-].
  - done.
Qed.

End Invariants.

(** ** From the builder to the collection *)

Section EndToEnd.
Context {Model Expr Session Cursor : Type}.
Context {RawDocument Document Projection : Type}.
Variable get_projection : Model → Projection.
Variable parse_obj : Model → RawDocument → Exn + Document.
#[local] Abbreviation FindQuery := (@FindQuery Model Expr Session Cursor).
#[local] Abbreviation FindKwargs := (@FindKwargs Model Session).
#[local] Abbreviation M := (@M Model Expr Session Cursor).
#[local] Abbreviation Collection :=
  (@Collection Expr Session RawDocument Projection).
Implicit Types (σ : gmap loc FindQuery) (d q : FindQuery) (self res : loc).
Implicit Types (kw : FindKwargs) (c : Collection) (args : list Expr).

(** X17. Awaiting what [find_one] returns issues exactly one [find_one]
    call on the collection, with limit [1] and, as filter, [And] of the
    expressions of [self] followed by the new ones (the empty mapping
    when there is none); when the collection has no such record the
    await gives [None]. *)
Theorem find_one_awaited σ self d args kw d' c :
  σ !! self = Some d →
  outcome (find_one self args kw σ) = inr d' →
  (run c (__await__ get_projection parse_obj d')).1
  = [Called_find_one (_find_query_params get_projection d')]
  ∧ p_limit (_find_query_params get_projection d') = 1
  ∧ p_filter (_find_query_params get_projection d')
    = match find_expressions d ++ args with
      | [] => EmptyMapping
      | _ :: _ => And (find_expressions d ++ args)
      end
  ∧ (coll_find_one c (_find_query_params get_projection d') = inr None →
       (run c (__await__ get_projection parse_obj d')).2 = inr ResNone).
Proof.
  intros Hself.
  rewrite (outcome_runs_as true _ _ _ _ d (runs_as_find_one args kw) Hself).
  unfold find_one_val.
  destruct (find_val d args kw) as [e|d1] eqn:Hfind; first done.
  simpl. rewrite one_val_eq. intros [= <-].
  apply find_val_inv in Hfind as [Hexprs _].
  unfold __await__, _find_query_params, get_filter_query. simpl.
  rewrite Hexprs. split_and!.
  - destruct (coll_find_one c _) as [e|[raw|]]; simpl; try done.
    by destruct (parse_obj _ raw).
  - done.
  - done.
  - by intros ->.
Qed.

(** X18. [set_session] does not validate and cannot fail; it replaces
    the session only ([None] removes it), the later of two calls wins,
    and it commutes with [limit], failure of [limit] included. *)
Theorem set_session_is_independent σ self d (s s' : option Session) (n : Z) :
  σ !! self = Some d →
  outcome (set_session self s σ) = inr (with_session s d)
  ∧ outcome ((r ← set_session self s; set_session r s') σ)
    = outcome (set_session self s' σ)
  ∧ outcome ((r ← set_session self s; limit r n) σ)
    = outcome ((r ← limit self n; set_session r s) σ).
Proof.
  intros Hself.
  rewrite (outcome_bind true true _ _ _ _ σ self d
             (runs_as_set_session s) (runs_as_set_session s') Hself).
  rewrite (outcome_bind true true _ _ _ _ σ self d
             (runs_as_set_session s) (runs_as_limit n) Hself).
  rewrite (outcome_bind true true _ _ _ _ σ self d
             (runs_as_limit n) (runs_as_set_session s) Hself).
  rewrite !(outcome_runs_as true _ _ _ _ d (runs_as_set_session _) Hself).
  split_and!; [done..|]. simpl.
  rewrite !copy_update_val_one. simpl. unfold validate_conint_ge0.
  by destruct (0 <=? n).
Qed.

End EndToEnd.

(** ** The further properties on the example query *)

Lemma limit_and_skip_bounds_witness :
  example_store !! 1%positive = Some example_query
  ∧ outcome (limit 1%positive (-1) example_store)
    = inl (ValidationError [([LField "limit_number"], NumberNotGeError 0)])
  ∧ outcome (skip 1%positive 5 example_store)
    = inr (with_skip_number 5 example_query).
Proof.
  split; [reflexivity|].
  destruct (limit_and_skip_bounds example_store 1%positive example_query (-1)
              eq_refl) as [_ Hneg].
  destruct (limit_and_skip_bounds example_store 1%positive example_query 5
              eq_refl) as [Hpos _].
  split; [apply Hneg; lia | apply Hpos; lia].
Defined.

Lemma project_defaults_to_document_model_witness :
  example_store !! 1%positive = Some example_query
  ∧ outcome (project 1%positive None example_store)
    = inr (with_projection_model "Doc" example_query).
Proof.
  split; [reflexivity|].
  apply (project_defaults_to_document_model example_store 1%positive
           example_query None).
  reflexivity.
Defined.

Lemma limit_after_one_witness :
  example_store !! 1%positive = Some example_query
  ∧ outcome ((r ← one 1%positive true; limit r 50) example_store)
    = inr (with_limit_number 50 (with_is_single true example_query))
  ∧ p_limit (_find_query_params (λ m : string, m)
               (with_limit_number 50 (with_is_single true example_query)))
    = 1.
Proof.
  split; [reflexivity|].
  apply (limit_after_one (λ m : string, m) example_store 1%positive
           example_query true 50); [reflexivity|lia].
Defined.

Lemma skip_and_limit_commute_witness :
  example_store !! 1%positive = Some example_query
  ∧ outcome ((r ← skip 1%positive 10; limit r 5) example_store)
    = outcome ((r ← limit 1%positive 5; skip r 10) example_store).
Proof.
  split; [reflexivity|].
  apply (skip_and_limit_commute example_store 1%positive example_query 10 5);
    [reflexivity|lia|lia].
Defined.

Lemma sort_of_empty_list_raises_witness :
  example_store !! 1%positive = Some example_query
  ∧ outcome (find 1%positive ["q"]
               (mkFindKwargs (Some 10) None (Some (VList [])) None None None)
               example_store)
    = inl (ValueError "'sort()' requires arguments.").
Proof.
  split; [reflexivity|].
  apply (sort_of_empty_list_raises example_store 1%positive example_query ["q"]
           (mkFindKwargs (Some 10) None (Some (VList [])) None None None)).
  - reflexivity.
  - reflexivity.
  - simpl. intros n [= <-]. lia.
  - simpl. intros n Hn. discriminate Hn.
Defined.

Lemma sort_ignores_none_witness :
  example_store !! 1%positive = Some example_query
  ∧ outcome (sort 1%positive [VNone; VStr "name"; VNone] example_store)
    = inr (with_sort_expressions [("name", ASCENDING); ("age", DESCENDING)]
             example_query).
Proof.
  split; [reflexivity|].
  apply (sort_ignores_none example_store 1%positive example_query
           [VNone; VStr "name"; VNone]).
  - reflexivity.
  - discriminate.
  - repeat constructor.
Defined.

Lemma sort_rejects_other_types_witness :
  example_store !! 1%positive = Some example_query
  ∧ In (VList [VStr "a"]) [VList [VStr "a"]; VStr "b"]
  ∧ ∃ errors i,
      outcome (sort 1%positive [VList [VStr "a"]; VStr "b"] example_store)
      = inl (ValidationError errors)
      ∧ In ([LField "sort_expressions"; LIndex i], TypeError "Wrong sort type")
           errors.
Proof.
  split; [reflexivity|]. split; [left; reflexivity|].
  apply (sort_rejects_other_types example_store 1%positive example_query
           [VList [VStr "a"]; VStr "b"] (VList [VStr "a"])).
  - reflexivity.
  - left. reflexivity.
  - reflexivity.
  - reflexivity.
  - reflexivity.
  - discriminate.
Defined.

Lemma stored_keys_revalidate_witness :
  example_store !! 1%positive = Some example_query
  ∧ validate_sort_items (VStr "-age")
    = inr (VTuple [VStr "age"; VDir DESCENDING])
  ∧ outcome (_copy_update 1%positive
               [Set_sort_expressions
                  (map sort_key_value (sort_expressions example_query))]
               example_store)
    = inr example_query.
Proof.
  split; [reflexivity|]. split; [reflexivity|].
  apply (stored_keys_revalidate example_store 1%positive example_query
           (VStr "-age") (VTuple [VStr "age"; VDir DESCENDING]));
    reflexivity.
Defined.

Lemma sort_composes_witness :
  example_store !! 1%positive = Some example_query
  ∧ outcome ((r ← sort 1%positive [VStr "a"]; sort r [VStr "-b"]) example_store)
    = outcome (sort 1%positive [VStr "-b"; VStr "a"] example_store).
Proof.
  split; [reflexivity|].
  apply (sort_composes example_store 1%positive example_query
           [VStr "a"] [VStr "-b"]).
  - reflexivity.
  - discriminate.
  - discriminate.
  - repeat constructor.
  - repeat constructor.
Defined.

Lemma find_applies_all_kwargs_witness :
  example_store !! 1%positive = Some example_query
  ∧ ∃ d', outcome (find 1%positive ["q"]
                     (mkFindKwargs (Some 10) (Some 5) (Some (VStr "name"))
                        None (Some "View") None)
                     example_store) = inr d'
          ∧ skip_number d' = 10 ∧ limit_number d' = 5
          ∧ sort_expressions d' = [("name", ASCENDING); ("age", DESCENDING)]
          ∧ projection_model d' = "View" ∧ session d' = None.
Proof.
  split; [reflexivity|].
  destruct (find_applies_all_kwargs example_store 1%positive example_query ["q"]
              (mkFindKwargs (Some 10) (Some 5) (Some (VStr "name"))
                 None (Some "View") None))
    as (d' & Hout & _ & _ & _ & Hskip & Hlimit & Hsort & _ & Hproj & Hsess).
  - reflexivity.
  - simpl. intros n [= <-]. lia.
  - simpl. intros n [= <-]. lia.
  - simpl. intros s [= <-]. reflexivity.
  - exists d'. split_and!; assumption.
Defined.

Lemma find_one_is_always_single_witness :
  example_store !! 1%positive = Some example_query
  ∧ outcome (find_one 1%positive ["q"]
               (mkFindKwargs None (Some 50) None (Some false) None None)
               example_store)
    = inr (with_limit_number 1
             (with_is_single true
                (with_find_expressions ["p"; "q"] example_query))).
Proof.
  split; [reflexivity|].
  destruct (find_one_is_always_single example_store 1%positive example_query
              ["q"] (mkFindKwargs None (Some 50) None (Some false) None None)
              eq_refl) as [Hout _].
  rewrite Hout. reflexivity.
Defined.

Lemma find_rejects_negative_bounds_witness :
  example_store !! 1%positive = Some example_query
  ∧ outcome (find 1%positive ["q"]
               (mkFindKwargs (Some (-1)) (Some (-1)) None None None None)
               example_store)
    = inl (ValidationError [([LField "skip_number"], NumberNotGeError 0)]).
Proof.
  split; [reflexivity|].
  apply (find_rejects_negative_bounds example_store 1%positive example_query
           ["q"] (mkFindKwargs (Some (-1)) (Some (-1)) None None None None)
           (-1)); [reflexivity|lia|reflexivity].
Defined.

Lemma find_accumulates_witness :
  example_store !! 1%positive = Some example_query
  ∧ outcome ((r ← find 1%positive ["q"] no_kwargs; find r ["r"] no_kwargs)
               example_store)
    = outcome (find 1%positive ["q"; "r"] no_kwargs example_store).
Proof.
  split; [reflexivity|].
  apply (find_accumulates example_store 1%positive example_query ["q"] ["r"]).
  reflexivity.
Defined.

Lemma sort_validates_arguments_alone_witness :
  example_store !! 1%positive = Some example_query
  ∧ outcome (sort 1%positive [VTuple [VStr "name"; VInt 1]; VInt 3] example_store)
    = inl (ValidationError
             [([LField "sort_expressions"; LIndex 1], TypeError "Wrong sort type")]).
Proof.
  split; [reflexivity|].
  rewrite (sort_validates_arguments_alone example_store 1%positive example_query
             [VTuple [VStr "name"; VInt 1]; VInt 3]);
    [reflexivity|reflexivity|discriminate|discriminate].
Defined.

Lemma transforms_only_accumulate_witness :
  example_store !! 1%positive = Some example_query
  ∧ outcome (apply_transform (T_sort [VStr "name"]) 1%positive example_store)
    = inr (with_sort_expressions [("name", ASCENDING); ("age", DESCENDING)]
             example_query)
  ∧ ∃ added, [("name", ASCENDING); ("age", DESCENDING)]
             = added ++ sort_expressions example_query.
Proof.
  split; [reflexivity|]. split; [reflexivity|].
  apply (transforms_only_accumulate (T_sort [VStr "name"]) example_store
           1%positive example_query
           (with_sort_expressions [("name", ASCENDING); ("age", DESCENDING)]
              example_query));
    reflexivity.
Defined.

Lemma transforms_keep_model_and_bounds_witness :
  example_store !! 1%positive = Some example_query
  ∧ outcome (apply_transform (T_one true) 1%positive example_store)
    = inr (with_limit_number 1 (with_is_single true example_query))
  ∧ document_model (with_limit_number 1 (with_is_single true example_query))
    = document_model example_query.
Proof.
  split; [reflexivity|]. split; [reflexivity|].
  apply (transforms_keep_model_and_bounds (T_one true) example_store
           1%positive example_query
           (with_limit_number 1 (with_is_single true example_query)));
    reflexivity.
Defined.

Lemma find_one_awaited_witness :
  example_store !! 1%positive = Some example_query
  ∧ outcome (find_one 1%positive ["q"] no_kwargs example_store)
    = inr (with_limit_number 1
             (with_is_single true
                (with_find_expressions ["p"; "q"] example_query)))
  ∧ (run example_collection
       (__await__ (λ m : string, m) (λ (_ : string) (raw : nat), inr raw)
          (with_limit_number 1
             (with_is_single true
                (with_find_expressions ["p"; "q"] example_query))))).2
    = inr ResNone.
Proof.
  split; [reflexivity|]. split; [reflexivity|].
  destruct (find_one_awaited (λ m : string, m)
              (λ (_ : string) (raw : nat), inr raw : Exn + nat)
              example_store 1%positive example_query ["q"] no_kwargs
              (with_limit_number 1
                 (with_is_single true
                    (with_find_expressions ["p"; "q"] example_query)))
              example_collection eq_refl eq_refl)
    as (_ & _ & _ & Hnone).
  apply Hnone. reflexivity.
Defined.

Lemma set_session_is_independent_witness :
  example_store !! 1%positive = Some example_query
  ∧ outcome ((r ← set_session 1%positive (Some 7%nat); limit r (-2)) example_store)
    = outcome ((r ← limit 1%positive (-2); set_session r (Some 7%nat)) example_store).
Proof.
  split; [reflexivity|].
  apply (set_session_is_independent example_store 1%positive example_query
           (Some 7%nat) None (-2)).
  reflexivity.
Defined.
